(** * One Pace Manager: the metadata reconciliation pipeline of [assets/js/app.js]

    A shallow embedding of [Utils.parseCSV] and of
    [OnePaceManager.applyOnePaceEdits] (with the arc resolution of
    [OnePaceManager.renameMediaFiles]), and the properties the specification
    states about them.

    Modelling conventions.
    - A JavaScript string is a [string]: a sequence of code units, each below
      256.  [trim] and [toLowerCase] are defined on that range.
    - A JavaScript number that the pipeline handles is an integer or [NaN]
      ([JsNum]); integers are kept exact (the catalog's indices are far below
      2^53, where the double representation starts to round).
    - An object used as a dictionary is a [gmap string _] of its own
      properties (what it inherits from [Object.prototype] is left out); an
      array is a [list].
    - The asynchronous function is written in state-passing style over
      [State]; what the outside world does while the function is suspended on
      an [await] is read from an [Env]. *)

From Stdlib Require Import ZArith Ascii DecimalString.
From stdpp Require Import gmap strings list.

Local Open Scope Z_scope.

(** ** JavaScript primitives used by the pipeline *)

Module Js.

(** Numbers: the result of [parseInt] and the catalog's [number] fields. *)
Inductive JsNum : Type :=
| NaN
| Int (z : Z).

#[global] Instance JsNum_eq_dec : EqDecision JsNum.
Proof. solve_decision. Defined.

(** [ToBoolean] on a number: [NaN] and [0] are falsy. *)
Definition truthyNum (n : JsNum) : bool :=
  match n with
  | NaN => false
  | Int z => negb (z =? 0)
  end.

(** [ToBoolean] on a string: only the empty string is falsy. *)
Definition truthy (s : string) : bool :=
  match s with
  | EmptyString => false
  | String _ _ => true
  end.

(** [ToBoolean] on a property that may be [undefined]. *)
Definition truthyOpt (o : option string) : bool :=
  match o with
  | None => false
  | Some s => truthy s
  end.

(** [Number.prototype.toString()]. *)
Definition toString (n : JsNum) : string :=
  match n with
  | NaN => "NaN"
  | Int z => NilZero.string_of_int (Z.to_int z)
  end.

Definition LF : ascii := "010"%char.
Definition comma : ascii := ","%char.
Definition dquote : ascii := "034"%char.

(** White space and line terminators removed by [String.prototype.trim]. *)
Definition isWhitespace (c : ascii) : bool :=
  match N_of_ascii c with
  | 9 | 10 | 11 | 12 | 13 | 32 | 160 => true
  | _ => false
  end%N.

Fixpoint trimStart (s : string) : string :=
  match s with
  | EmptyString => EmptyString
  | String c s' => if isWhitespace c then trimStart s' else s
  end.

Fixpoint trimEnd (s : string) : string :=
  match s with
  | EmptyString => EmptyString
  | String c s' =>
      match trimEnd s' with
      | EmptyString => if isWhitespace c then EmptyString else String c EmptyString
      | t => String c t
      end
  end.

Definition trim (s : string) : string := trimEnd (trimStart s).

(** [String.prototype.toLowerCase] on one code unit: A-Z, and the Latin-1
    capitals U+00C0-U+00DE except the multiplication sign U+00D7. *)
Definition lowerChar (c : ascii) : ascii :=
  let n := N_of_ascii c in
  if ((65 <=? n) && (n <=? 90))%N then ascii_of_N (n + 32)
  else if ((192 <=? n) && (n <=? 222) && negb (n =? 215))%N then ascii_of_N (n + 32)
  else c.

Fixpoint toLowerCase (s : string) : string :=
  match s with
  | EmptyString => EmptyString
  | String c s' => String (lowerChar c) (toLowerCase s')
  end.

(** [s.split(sep)] for a one-character separator: never empty. *)
Fixpoint split (sep : ascii) (s : string) : list string :=
  match s with
  | EmptyString => [EmptyString]
  | String c s' =>
      if decide (c = sep) then EmptyString :: split sep s'
      else match split sep s' with
           | [] => [String c EmptyString]
           | piece :: pieces => String c piece :: pieces
           end
  end.

(** [s.replace(/c/g, empty)]: every occurrence of [c] removed. *)
Fixpoint removeChar (c : ascii) (s : string) : string :=
  match s with
  | EmptyString => EmptyString
  | String a s' => if decide (a = c) then removeChar c s' else String a (removeChar c s')
  end.

Fixpoint startsWith (s p : string) {struct p} : bool :=
  match p, s with
  | EmptyString, _ => true
  | String _ _, EmptyString => false
  | String a p', String b s' => if decide (a = b) then startsWith s' p' else false
  end.

(** [s.includes(sub)]: [sub] occurs somewhere in [s]. *)
Fixpoint includes (s sub : string) : bool :=
  startsWith s sub ||
  match s with
  | EmptyString => false
  | String _ s' => includes s' sub
  end.

(** [s.padStart(2, "0")]. *)
Definition padStart2 (s : string) : string :=
  match s with
  | EmptyString => "00"
  | String c EmptyString => String "0"%char s
  | _ => s
  end.

(** [parts.join(sep)]. *)
Fixpoint join (sep : string) (parts : list string) : string :=
  match parts with
  | [] => EmptyString
  | [p] => p
  | p :: rest => p +:+ sep +:+ join sep rest
  end.

(** Value of a digit in the given radix, if it is one. *)
Definition digitValue (radix : Z) (c : ascii) : option Z :=
  let n := Z.of_N (N_of_ascii c) in
  let v := if (48 <=? n) && (n <=? 57) then Some (n - 48)
           else if (97 <=? n) && (n <=? 122) then Some (n - 87)
           else if (65 <=? n) && (n <=? 90) then Some (n - 55)
           else None in
  match v with
  | Some d => if d <? radix then Some d else None
  | None => None
  end.

(** The longest prefix of digits, read most significant first. *)
Fixpoint readDigits (radix : Z) (acc : option Z) (s : string) : option Z :=
  match s with
  | EmptyString => acc
  | String c s' =>
      match digitValue radix c with
      | Some d => readDigits radix (Some (radix * default 0 acc + d)) s'
      | None => acc
      end
  end.

(** [parseInt(s)] without a radix: leading white space, an optional sign,
    an optional [0x]/[0X] prefix, then the longest run of digits; [NaN]
    when there is no digit. *)
Definition parseInt (s : string) : JsNum :=
  let s1 := trimStart s in
  let '(sign, s2) :=
    match s1 with
    | String "-"%char r => (-1, r)
    | String "+"%char r => (1, r)
    | _ => (1, s1)
    end in
  let '(radix, s3) :=
    match s2 with
    | String "0"%char (String "x"%char r) => (16, r)
    | String "0"%char (String "X"%char r) => (16, r)
    | _ => (10, s2)
    end in
  match readDigits radix None s3 with
  | Some v => Int (sign * v)
  | None => NaN
  end.

End Js.

Import Js.

(** ** Data model *)

(** A parsed spreadsheet row: column name to cell text. *)
Abbreviation Row := (gmap string string).

(** ** [Utils.parseCSV] *)

Module Utils.

(** One line cut at every comma; each piece trimmed, then stripped of its
    double-quote characters. *)
Definition cells (line : string) : list string :=
  (fun v => removeChar dquote (trim v)) <$> split comma line.

(** The lines of the text (cut at every line feed) that are not blank. *)
Definition nonBlankLines (csvText : string) : list string :=
  filter (fun line => truthy (trim line) = true) (split LF csvText).

(** [headers.forEach((header, index) => { obj[header] = values[index] || empty })]
    on an initially empty object. *)
Fixpoint fillRow (headers : list string) (index : nat) (values : list string)
    (obj : Row) : Row :=
  match headers with
  | [] => obj
  | header :: rest =>
      fillRow rest (S index) values (<[header := default EmptyString (values !! index)]> obj)
  end.

Definition parseLine (headers : list string) (line : string) : Row :=
  fillRow headers 0 (cells line) ∅.

Definition parseCSV (csvText : string) : list Row :=
  let lines := nonBlankLines csvText in
  if decide (length lines < 2)%nat then []
  else
    let headers := cells (default EmptyString (head lines)) in
    parseLine headers <$> drop 1 lines.

End Utils.

(** ** The catalog tree returned by [getShowMetadata] *)

Module Episode.
Record t : Type := mk {
  id : string;
  title : option string;
  number : JsNum;
  summary : option string;
  originallyAvailableAt : option string
}.
End Episode.

Module Season.
Record t : Type := mk {
  id : string;
  title : option string;
  number : JsNum;
  summary : option string;
  episodes : list Episode.t
}.
End Season.

(** The [updates] object handed to [updateMetadata]. *)
Module Updates.
Record t : Type := mk {
  title : option string;
  summary : option string;
  originallyAvailableAt : option string
}.

Definition empty : t := mk None None None.

(** [Object.keys(updates)], in insertion order. *)
Definition keys (u : t) : list string :=
  (if bool_decide (is_Some (title u)) then ["title"] else []) ++
  (if bool_decide (is_Some (summary u)) then ["summary"] else []) ++
  (if bool_decide (is_Some (originallyAvailableAt u)) then ["originallyAvailableAt"] else []).
End Updates.

(** The check boxes read into [updateOptions]. *)
Module UpdateOptions.
Record t : Type := mk {
  title : bool;
  seasonTitle : bool;
  description : bool;
  date : bool;
  posters : bool;
  dryRun : bool
}.
End UpdateOptions.

(** The three sheets resolved by [GoogleSheetsAPI.getAllData]. *)
Module SheetsData.
Record t : Type := mk {
  seasonMapping : list Row;
  episodeData : list Row;
  releaseData : list Row
}.
End SheetsData.

(** ** The machine state

    The fields of [this.state] that [applyOnePaceEdits] reads or writes, the
    two DOM texts it writes ([outputLog] as a list of (type, message) lines,
    [statusMessage]), its local counter [totalUpdates], and two ghost fields:
    [updateCalls], every invocation of [updateMetadata] so far with its item
    and its [updates] object, and [awaits], the number of suspensions so far. *)
Record State : Type := mkState {
  selectedShow : option string;
  currentService : string;
  seasonMappingData : option (list Row);
  episodeData : option (list Row);
  releaseData : option (list Row);
  operationCancelled : bool;
  outputLog : list (string * string);
  statusMessage : string;
  totalUpdates : nat;
  updateCalls : list (string * Updates.t);
  awaits : nat
}.

(** What the world outside the function does: the outcome of each request
    ([inl message] is a rejection with [Error(message)]), and whether the
    user's [stopOperation] handler runs during the n-th suspension.  The two
    adapters are external to the function: [jellyfinGetShowMetadata] stands
    for whatever the loaded [JellyfinAPI] class does, the [TypeError] of a
    class without the method included.  [plexUpdateMetadata n item updates]
    is the outcome of the call made after [n] earlier ones. *)
Record Env : Type := mkEnv {
  getAllData : string + SheetsData.t;
  plexGetShowMetadata : string + list Season.t;
  jellyfinGetShowMetadata : string + list Season.t;
  plexUpdateMetadata : nat -> string -> Updates.t -> option string;
  stopPressed : nat -> bool
}.

(** How the function is left. *)
Inductive Exit : Type :=
| NoShowSelected
| Completed
| Failed (message : string).

Definition writeOutput (message type : string) (s : State) : State :=
  mkState (selectedShow s) (currentService s) (seasonMappingData s) (episodeData s)
    (releaseData s) (operationCancelled s) (outputLog s ++ [(type, message)])
    (statusMessage s) (totalUpdates s) (updateCalls s) (awaits s).

Definition setStatus (message : string) (s : State) : State :=
  mkState (selectedShow s) (currentService s) (seasonMappingData s) (episodeData s)
    (releaseData s) (operationCancelled s) (outputLog s)
    message (totalUpdates s) (updateCalls s) (awaits s).

Definition setOperationCancelled (b : bool) (s : State) : State :=
  mkState (selectedShow s) (currentService s) (seasonMappingData s) (episodeData s)
    (releaseData s) b (outputLog s)
    (statusMessage s) (totalUpdates s) (updateCalls s) (awaits s).

Definition setTotalUpdates (n : nat) (s : State) : State :=
  mkState (selectedShow s) (currentService s) (seasonMappingData s) (episodeData s)
    (releaseData s) (operationCancelled s) (outputLog s)
    (statusMessage s) n (updateCalls s) (awaits s).

Definition setSheets (d : SheetsData.t) (s : State) : State :=
  mkState (selectedShow s) (currentService s)
    (Some (SheetsData.seasonMapping d)) (Some (SheetsData.episodeData d))
    (Some (SheetsData.releaseData d)) (operationCancelled s) (outputLog s)
    (statusMessage s) (totalUpdates s) (updateCalls s) (awaits s).

Definition recordCall (itemId : string) (updates : Updates.t) (s : State) : State :=
  mkState (selectedShow s) (currentService s) (seasonMappingData s) (episodeData s)
    (releaseData s) (operationCancelled s) (outputLog s)
    (statusMessage s) (totalUpdates s) (updateCalls s ++ [(itemId, updates)]) (awaits s).

Definition tick (s : State) : State :=
  mkState (selectedShow s) (currentService s) (seasonMappingData s) (episodeData s)
    (releaseData s) (operationCancelled s) (outputLog s)
    (statusMessage s) (totalUpdates s) (updateCalls s) (S (awaits s)).

(** [stopOperation()], the handler of the stop button. *)
Definition stopOperation (s : State) : State :=
  setStatus "Operation cancelled"
    (writeOutput "Cancelling operation..." "WARNING" (setOperationCancelled true s)).

(** One suspension of the function ([await]): the event loop may run the stop
    handler before the function resumes. *)
Definition await (env : Env) (s : State) : State :=
  if stopPressed env (awaits s) then stopOperation (tick s) else tick s.

(** ** [OnePaceManager.applyOnePaceEdits] *)

Module ApplyOnePaceEdits.

(** The value stored under a key of [episodeLookup]. *)
Record LookupEntry : Type := mkEntry {
  title : string;
  description : option string
}.

(** [titleToSeason]: one assignment per season-mapping row that has both a
    [part] and a [title_en]. *)
Definition addSeasonRow (titleToSeason : gmap string JsNum) (row : Row) : gmap string JsNum :=
  match row !! "part", row !! "title_en" with
  | Some part, Some title_en =>
      if truthy part && truthy title_en then
        <[trim (toLowerCase title_en) :=
            if decide (title_en = "Specials") then Int 0 else parseInt part]> titleToSeason
      else titleToSeason
  | _, _ => titleToSeason
  end.

Definition buildTitleToSeason (seasonMappingData : list Row) : gmap string JsNum :=
  foldl addSeasonRow ∅ seasonMappingData.

(** The expression bound to [seasonNum]: [None] is [null]. *)
Definition seasonNum (titleToSeason : gmap string JsNum) (arc : string) : option JsNum :=
  if bool_decide (arc = "Specials") || bool_decide (arc = "One Piece Fan Letter") then Some (Int 0)
  else match titleToSeason !! toLowerCase arc with
       | Some n => if truthyNum n then Some n else None
       | None => None
       end.

(** The template [`${seasonNum}-${epPart}`] of the lookup builder; [epPart] is
    the cell text. *)
Definition lookupKey (seasonNum : JsNum) (epPart : string) : string :=
  toString seasonNum +:+ "-" +:+ epPart.

(** The template [`${season.number}-${episode.number}`] of the episode loop. *)
Definition catalogKey (seasonNumber episodeNumber : JsNum) : string :=
  toString seasonNumber +:+ "-" +:+ toString episodeNumber.

(** The body of [this.state.episodeData.forEach]. *)
Definition addEpisodeRow (titleToSeason : gmap string JsNum)
    (episodeLookup : gmap string LookupEntry) (row : Row) : gmap string LookupEntry :=
  match trim <$> row !! "arc_title", row !! "arc_part", row !! "title_en" with
  | Some arc, Some epPart, Some title =>
      if truthy arc && truthy epPart && truthy title then
        match seasonNum titleToSeason arc with
        | Some n => <[lookupKey n epPart := mkEntry title (row !! "description_en")]> episodeLookup
        | None => episodeLookup
        end
      else episodeLookup
  | _, _, _ => episodeLookup
  end.

Definition buildEpisodeLookup (titleToSeason : gmap string JsNum) (episodeData : list Row)
    : gmap string LookupEntry :=
  foldl (addEpisodeRow titleToSeason) ∅ episodeData.

(** The predicate handed to [releaseData.find]: the label cell includes the
    episode number padded to two digits. *)
Definition releaseMatches (episodeNumber : JsNum) (row : Row) : bool :=
  match row !! "One Pace Episode" with
  | Some label => includes label (padStart2 (toString episodeNumber))
  | None => false
  end.

(** [this.state.releaseData?.find(...)]. *)
Definition findRelease (releaseData : option (list Row)) (episodeNumber : JsNum) : option Row :=
  match releaseData with
  | Some rows => List.find (releaseMatches episodeNumber) rows
  | None => None
  end.

(** [S${season.number.toString().padStart(2, 0)}E${episode.number...}]. *)
Definition episodeTag (season : Season.t) (episode : Episode.t) : string :=
  "S" +:+ padStart2 (toString (Season.number season)) +:+
  "E" +:+ padStart2 (toString (Episode.number episode)).

(** The description proposed for an episode: the lookup text followed by the
    chapter and source-episode lines of its release row. *)
Definition episodeDescription (description : string) (releaseInfo : option Row) : string :=
  match releaseInfo with
  | Some info =>
      let d1 := match info !! "Chapters" with
                | Some c => if truthy c then description +:+ String LF ("Chapters: " +:+ c)
                            else description
                | None => description
                end in
      match info !! "Episodes" with
      | Some e => if truthy e then d1 +:+ String LF ("Episodes: " +:+ e) else d1
      | None => d1
      end
  | None => description
  end.

(** The field-by-field diff of one episode against its lookup entry. *)
Definition episodeUpdates (opts : UpdateOptions.t) (releaseData : option (list Row))
    (episode : Episode.t) (data : LookupEntry) : Updates.t :=
  let uTitle :=
    if UpdateOptions.title opts && negb (bool_decide (Episode.title episode = Some (title data)))
    then Some (title data) else None in
  let uSummary :=
    match description data with
    | Some d =>
        if UpdateOptions.description opts && truthy d then
          let text := episodeDescription d (findRelease releaseData (Episode.number episode)) in
          if bool_decide (Episode.summary episode = Some text) then None else Some text
        else None
    | None => None
    end in
  let uDate :=
    if UpdateOptions.date opts then
      match findRelease releaseData (Episode.number episode) with
      | Some info =>
          match info !! "Release Date" with
          | Some d =>
              if truthy d && negb (includes d "To Be Released") &&
                 negb (bool_decide (Episode.originallyAvailableAt episode = Some d))
              then Some d else None
          | None => None
          end
      | None => None
      end
    else None in
  Updates.mk uTitle uSummary uDate.

(** [willUpdate]: some field was put into [updates]. *)
Definition willUpdate (u : Updates.t) : bool :=
  bool_decide (is_Some (Updates.title u)) ||
  bool_decide (is_Some (Updates.summary u)) ||
  bool_decide (is_Some (Updates.originallyAvailableAt u)).

Section Engine.

(** [part == number], the abstract equality of a cell text with a number.  It
    goes through the conversion of the text to a floating-point number and is
    kept abstract. *)
Variable looseEq : string -> JsNum -> bool.

Variable env : Env.
Variable opts : UpdateOptions.t.

(** The [try { if (service === plex) await updateMetadata(...); writeOutput;
    totalUpdates++; [await sleep(100)] } catch { writeOutput }] block shared by
    the three update sites; [pause] tells whether the site has the sleep. *)
Definition liveUpdate (itemId : string) (updates : Updates.t)
    (okMessage failPrefix : string) (pause : bool) (s : State) : State :=
  let counted s :=
    let s := setTotalUpdates (S (totalUpdates s)) (writeOutput okMessage "SUCCESS" s) in
    if pause then await env s else s in
  if bool_decide (currentService s = "plex") then
    let outcome := plexUpdateMetadata env (length (updateCalls s)) itemId updates in
    let s := await env (recordCall itemId updates s) in
    match outcome with
    | None => counted s
    | Some message => writeOutput (failPrefix +:+ message) "ERROR" s
    end
  else counted s.

(** [this.state.seasonMappingData.find((row) => row.part == season.number)]. *)
Definition findSeasonInfo (seasonMappingData : list Row) (season : Season.t) : option Row :=
  List.find (fun row => match row !! "part" with
                        | Some part => looseEq part (Season.number season)
                        | None => false
                        end) seasonMappingData.

Definition updateSeasonTitle (seasonInfo : option Row) (season : Season.t) (s : State) : State :=
  match seasonInfo with
  | Some info =>
      match info !! "title_en" with
      | Some title_en =>
          if UpdateOptions.seasonTitle opts && truthy title_en &&
             negb (bool_decide (Some title_en = Season.title season)) then
            if UpdateOptions.dryRun opts then
              writeOutput ("      [Dry Run] Would update Season " +:+
                           toString (Season.number season) +:+ " title to '" +:+
                           title_en +:+ "'") "INFO" s
            else
              liveUpdate (Season.id season) (Updates.mk (Some title_en) None None)
                ("      Updated Season " +:+ toString (Season.number season) +:+
                 " title to '" +:+ title_en +:+ "'")
                ("      Failed to update Season " +:+ toString (Season.number season) +:+
                 " title: ") false s
          else s
      | None => s
      end
  | None => s
  end.

Definition updateSeasonDescription (seasonInfo : option Row) (season : Season.t) (s : State)
    : State :=
  match seasonInfo with
  | Some info =>
      match info !! "description_en" with
      | Some description_en =>
          if UpdateOptions.description opts && truthy description_en then
            if UpdateOptions.dryRun opts then
              writeOutput ("      [Dry Run] Would update Season " +:+
                           toString (Season.number season) +:+ " description") "INFO" s
            else
              liveUpdate (Season.id season) (Updates.mk None (Some description_en) None)
                ("      Updated Season " +:+ toString (Season.number season) +:+
                 " description")
                ("      Failed to update Season " +:+ toString (Season.number season) +:+
                 " description: ") false s
          else s
      | None => s
      end
  | None => s
  end.

(** The body of the episode loop after its cancellation check. *)
Definition processEpisode (episodeLookup : gmap string LookupEntry)
    (season : Season.t) (episode : Episode.t) (s : State) : State :=
  match episodeLookup !! catalogKey (Season.number season) (Episode.number episode) with
  | None =>
      writeOutput ("No data found for S" +:+ toString (Season.number season) +:+
                   "E" +:+ toString (Episode.number episode)) "WARNING" s
  | Some data =>
      let updates := episodeUpdates opts (releaseData s) episode data in
      if willUpdate updates then
        if UpdateOptions.dryRun opts then
          writeOutput ("      [Dry Run] Would update " +:+ episodeTag season episode +:+
                       ": " +:+ join "/" (Updates.keys updates)) "INFO" s
        else
          liveUpdate (Episode.id episode) updates
            ("      Updated " +:+ episodeTag season episode +:+ ": " +:+
             join "/" (Updates.keys updates))
            ("      Failed to update " +:+ episodeTag season episode +:+ ": ") true s
      else
        writeOutput ("      No updates needed for " +:+ episodeTag season episode) "INFO" s
  end.

(** [for (const episode of season.episodes) { if (cancelled) break; ... }]. *)
Fixpoint episodeLoop (episodeLookup : gmap string LookupEntry) (season : Season.t)
    (episodes : list Episode.t) (s : State) : State :=
  match episodes with
  | [] => s
  | episode :: rest =>
      if operationCancelled s then s
      else episodeLoop episodeLookup season rest (processEpisode episodeLookup season episode s)
  end.

(** The body of the season loop after its cancellation check, up to and
    including the pause between seasons. *)
Definition processSeason (seasonMapping : list Row) (episodeLookup : gmap string LookupEntry)
    (season : Season.t) (s : State) : State :=
  let seasonInfo := findSeasonInfo seasonMapping season in
  let s := updateSeasonTitle seasonInfo season s in
  let s := updateSeasonDescription seasonInfo season s in
  let s := episodeLoop episodeLookup season (Season.episodes season) s in
  await env s.

(** [for (const season of showMetadata.seasons) { if (cancelled) { warn; break }
    ... }]. *)
Fixpoint seasonLoop (seasonMapping : list Row) (episodeLookup : gmap string LookupEntry)
    (seasons : list Season.t) (s : State) : State :=
  match seasons with
  | [] => s
  | season :: rest =>
      if operationCancelled s then writeOutput "Operation cancelled by user" "WARNING" s
      else seasonLoop seasonMapping episodeLookup rest
             (processSeason seasonMapping episodeLookup season s)
  end.

(** The [catch] block of the function. *)
Definition failed (message : string) (s : State) : State * Exit :=
  (setStatus "Update process failed"
     (writeOutput ("Error during update process: " +:+ message) "ERROR" s),
   Failed message).

(** Loading of the sheets unless both are already in [this.state]; the second
    component is the message of the rejection, if any. *)
Definition loadSheets (s : State) : State * option string :=
  if bool_decide (is_Some (seasonMappingData s)) && bool_decide (is_Some (episodeData s))
  then (s, None)
  else
    let s := await env s in
    match getAllData env with
    | inl message => (s, Some message)
    | inr sheetsData =>
        (writeOutput "Loaded season mapping and episode data from Google Sheets" "SUCCESS"
           (setSheets sheetsData s), None)
    end.

(** The message of the [TypeError] thrown when a property of [undefined] or
    [null] is read. *)
Definition typeError : string := "Cannot read properties of undefined".

(** The fetch of the show's tree from the current service; with any other
    service [showMetadata] stays [undefined] and reading its [seasons]
    throws. *)
Definition fetchShowMetadata (s : State) : State * (string + list Season.t) :=
  if bool_decide (currentService s = "plex") then (await env s, plexGetShowMetadata env)
  else if bool_decide (currentService s = "jellyfin") then (await env s, jellyfinGetShowMetadata env)
  else (s, inl typeError).

Definition finish (s : State) : State :=
  let n := totalUpdates s in
  let s := writeOutput "--------------------------------" "INFO" s in
  let s := writeOutput ("Finished processing One Pace - " +:+ toString (Int (Z.of_nat n)) +:+
                        " updates applied") "SUCCESS" s in
  let s := writeOutput "--------------------------------" "INFO" s in
  setStatus ("Completed - " +:+ toString (Int (Z.of_nat n)) +:+ " updates applied") s.

Definition applyOnePaceEdits (s : State) : State * Exit :=
  match selectedShow s with
  | None => (writeOutput "No show selected. Search for the show first." "ERROR" s, NoShowSelected)
  | Some _ =>
      let s := setOperationCancelled false s in
      let s := setStatus "Loading metadata from Google Sheets..." s in
      let s := writeOutput "Starting OnePace metadata updates..." "INFO" s in
      match loadSheets s with
      | (s, Some message) => failed message s
      | (s, None) =>
          match fetchShowMetadata s with
          | (s, inl message) => failed message s
          | (s, inr seasons) =>
              let s := writeOutput ("Loaded metadata for " +:+
                                    toString (Int (Z.of_nat (length seasons))) +:+
                                    " seasons") "SUCCESS" s in
              match seasonMappingData s, episodeData s with
              | Some seasonMapping, Some episodeRows =>
                  let titleToSeason := buildTitleToSeason seasonMapping in
                  let episodeLookup := buildEpisodeLookup titleToSeason episodeRows in
                  let s := setTotalUpdates 0 s in
                  let s := seasonLoop seasonMapping episodeLookup seasons s in
                  (finish s, Completed)
              | _, _ => failed typeError s
              end
          end
      end
  end.

End Engine.

End ApplyOnePaceEdits.

(** ** The arc resolution of [OnePaceManager.renameMediaFiles] *)

Module RenameMediaFiles.

(** A value of this function's [titleToSeason]: the text [0] for the
    specials row, the parsed part number for the others. *)
Inductive SeasonValue : Type :=
| Text (s : string)
| Num (n : JsNum).

Definition truthyValue (v : SeasonValue) : bool :=
  match v with
  | Text s => truthy s
  | Num n => truthyNum n
  end.

Definition addSeasonRow (titleToSeason : gmap string SeasonValue) (row : Row)
    : gmap string SeasonValue :=
  match row !! "part", row !! "title_en" with
  | Some part, Some title_en =>
      if truthy part && truthy title_en then
        <[trim (toLowerCase title_en) :=
            if decide (title_en = "Specials") then Text "0" else Num (parseInt part)]> titleToSeason
      else titleToSeason
  | _, _ => titleToSeason
  end.

Definition buildTitleToSeason (seasonMappingData : list Row) : gmap string SeasonValue :=
  foldl addSeasonRow ∅ seasonMappingData.

(** The expression bound to [seasonNumber] for the arc title captured from a
    file name: [None] is [null]. *)
Definition seasonNumber (titleToSeason : gmap string SeasonValue) (arcTitle : string)
    : option SeasonValue :=
  if bool_decide (arcTitle = "Specials") then Some (Num (Int 0))
  else match titleToSeason !! toLowerCase arcTitle with
       | Some v => if truthyValue v then Some v else None
       | None => None
       end.

End RenameMediaFiles.

(** ** Vocabulary of the specification *)

(** [c] occurs in [s]. *)
Fixpoint hasChar (c : ascii) (s : string) : bool :=
  match s with
  | EmptyString => false
  | String a s' => bool_decide (a = c) || hasChar c s'
  end.

(** A text without double quote and without comma. *)
Definition clean (s : string) : Prop :=
  hasChar dquote s = false ∧ hasChar comma s = false.


(** The label cell of [row] has [token] as a substring. *)
Definition labelContains (token : string) (row : Row) : Prop :=
  ∃ label before after,
    row !! "One Pace Episode" = Some label ∧ label = before +:+ token +:+ after.

(** The user never presses stop. *)
Definition noStop (env : Env) : Prop := ∀ n, stopPressed env n = false.

(** Neither the trace of update calls nor the counter moved. *)
Definition sameUpdates (s s' : State) : Prop :=
  updateCalls s' = updateCalls s ∧ totalUpdates s' = totalUpdates s.

Definition separator : string * string := ("INFO", "--------------------------------").

(** The three lines that report the count at the end of a run. *)
Definition summaryLines (n : nat) : list (string * string) :=
  [separator;
   ("SUCCESS", "Finished processing One Pace - " +:+ toString (Int (Z.of_nat n)) +:+
               " updates applied");
   separator].

Definition cancelWarning : string * string := ("WARNING", "Operation cancelled by user").

(** The optional rate-limiting pause after a counted update. *)
Definition pauseIf (env : Env) (pause : bool) (s : State) : State :=
  if pause then await env s else s.

(** The sheets have to be fetched. *)
Definition needsLoad (s : State) : Prop :=
  ¬ (is_Some (seasonMappingData s) ∧ is_Some (episodeData s)).

(** The fetch of the show's tree fails with [message]. *)
Definition catalogFailure (env : Env) (s : State) (message : string) : Prop :=
  (currentService s = "plex" ∧ plexGetShowMetadata env = inl message) ∨
  (currentService s = "jellyfin" ∧ jellyfinGetShowMetadata env = inl message) ∨
  (currentService s ≠ "plex" ∧ currentService s ≠ "jellyfin" ∧
   message = ApplyOnePaceEdits.typeError).

(** One of the two initial fetches fails with [message]: the sheets, or, the
    sheets being there, the show's tree. *)
Definition fetchFailed (env : Env) (s : State) (message : string) : Prop :=
  selectedShow s ≠ None ∧
  ((needsLoad s ∧ getAllData env = inl message) ∨
   ((¬ needsLoad s ∨ ∃ d, getAllData env = inr d) ∧ catalogFailure env s message)).

(** The lines a run can write before the season loop starts. *)
Definition preludeLines : list (string * string) :=
  [("INFO", "Starting OnePace metadata updates...");
   ("SUCCESS", "Loaded season mapping and episode data from Google Sheets");
   ("WARNING", "Cancelling operation...")].

(** Nothing was updated or counted, and only prelude lines were logged. *)
Definition prelude (s s' : State) : Prop :=
  sameUpdates s s' ∧ currentService s' = currentService s ∧
  ∃ added, outputLog s' = outputLog s ++ added ∧ Forall (fun line => line ∈ preludeLines) added.

(** A line that is not a warning, or is one of the three warnings of the
    function: the stop handler's, the season loop's, and the episode loop's
    for a missing lookup entry. *)
Definition knownLine (line : string * string) : Prop :=
  line.1 = "WARNING" →
  line.2 = "Cancelling operation..." ∨
  line.2 = "Operation cancelled by user" ∨
  ∃ seasonNumber episodeNumber,
    line.2 = "No data found for S" +:+ toString seasonNumber +:+ "E" +:+ toString episodeNumber.

(** [s'] comes after [s]: the service is the same, the trace of update calls
    has only grown (and not at all unless the service is plex), and the log
    has only grown, by known lines. *)
Definition extends (s s' : State) : Prop :=
  currentService s' = currentService s ∧
  (∃ later, updateCalls s' = updateCalls s ++ later ∧
            (currentService s ≠ "plex" → later = [])) ∧
  (∃ added, outputLog s' = outputLog s ++ added ∧ Forall knownLine added).

(** The update calls that the diff asks for. *)
Section Plan.

Variable looseEq : string -> JsNum -> bool.
Variable opts : UpdateOptions.t.

Definition seasonTitleCall (seasonInfo : option Row) (season : Season.t)
    : list (string * Updates.t) :=
  match seasonInfo with
  | Some info =>
      match info !! "title_en" with
      | Some title_en =>
          if UpdateOptions.seasonTitle opts && truthy title_en &&
             negb (bool_decide (Some title_en = Season.title season))
          then [(Season.id season, Updates.mk (Some title_en) None None)] else []
      | None => []
      end
  | None => []
  end.

Definition seasonDescriptionCall (seasonInfo : option Row) (season : Season.t)
    : list (string * Updates.t) :=
  match seasonInfo with
  | Some info =>
      match info !! "description_en" with
      | Some description_en =>
          if UpdateOptions.description opts && truthy description_en
          then [(Season.id season, Updates.mk None (Some description_en) None)] else []
      | None => []
      end
  | None => []
  end.

Definition episodeCall (episodeLookup : gmap string ApplyOnePaceEdits.LookupEntry)
    (releaseData : option (list Row)) (season : Season.t) (episode : Episode.t)
    : list (string * Updates.t) :=
  match episodeLookup !! ApplyOnePaceEdits.catalogKey (Season.number season)
                           (Episode.number episode) with
  | Some data =>
      let updates := ApplyOnePaceEdits.episodeUpdates opts releaseData episode data in
      if ApplyOnePaceEdits.willUpdate updates then [(Episode.id episode, updates)] else []
  | None => []
  end.

Definition seasonCalls (seasonMapping : list Row)
    (episodeLookup : gmap string ApplyOnePaceEdits.LookupEntry)
    (releaseData : option (list Row)) (season : Season.t) : list (string * Updates.t) :=
  seasonTitleCall (ApplyOnePaceEdits.findSeasonInfo looseEq seasonMapping season) season ++
  seasonDescriptionCall (ApplyOnePaceEdits.findSeasonInfo looseEq seasonMapping season) season ++
  concat (episodeCall episodeLookup releaseData season <$> Season.episodes season).

Definition plannedCalls (seasonMapping : list Row)
    (episodeLookup : gmap string ApplyOnePaceEdits.LookupEntry)
    (releaseData : option (list Row)) (seasons : list Season.t) : list (string * Updates.t) :=
  concat (seasonCalls seasonMapping episodeLookup releaseData <$> seasons).

End Plan.


(** ** Example data *)

Module Example.

Definition row (cells : list (string * string)) : Row := list_to_map cells.

(** An instance of the abstract equality for the examples: the cell, read as
    an integer, is the number. *)
Definition decimalEq (part : string) (n : JsNum) : bool := bool_decide (parseInt part = n).

Definition eastBlueMap : list Row := [row [("part", "1"); ("title_en", "East Blue")]].

Definition romanceDawn : Row :=
  row [("arc_title", "East Blue"); ("arc_part", "3"); ("title_en", "Romance Dawn");
       ("description_en", "...")].

Definition paddedRow : Row :=
  row [("arc_title", "East Blue"); ("arc_part", "03"); ("title_en", "Romance Dawn")].

Definition strayRow : Row :=
  row [("arc_title", "Unknown Arc X"); ("arc_part", "1"); ("title_en", "Lost")].

Definition row105 : Row := {[ "One Pace Episode" := "Episode 105" ]}.

(** Two header names, then one line whose first field is quoted and holds a
    comma. *)
Definition quotedText : string :=
  "a,b" +:+ String LF (String dquote ("x,y" +:+ String dquote EmptyString)).

Definition sheets : SheetsData.t :=
  SheetsData.mk eastBlueMap [romanceDawn; strayRow] [].

Definition episode3 : Episode.t := Episode.mk "e3" (Some "Old Title") (Int 3) None None.
Definition episode4 : Episode.t := Episode.mk "e4" (Some "Other") (Int 4) None None.

Definition season1 : Season.t := Season.mk "s1" (Some "Season 1") (Int 1) None [episode3].
Definition season2 : Season.t := Season.mk "s2" (Some "Season 2") (Int 2) None [episode4].

Definition lookup : gmap string ApplyOnePaceEdits.LookupEntry :=
  ApplyOnePaceEdits.buildEpisodeLookup (ApplyOnePaceEdits.buildTitleToSeason eastBlueMap)
    [romanceDawn; strayRow].

Definition titles : UpdateOptions.t := UpdateOptions.mk true true false false false false.
Definition titlesDry : UpdateOptions.t := UpdateOptions.mk true true false false false true.

Definition idle (service : string) : State :=
  mkState (Some "show") service None None None false [] EmptyString 0 [] 0.

Definition loaded (service : string) : State :=
  mkState (Some "show") service (Some eastBlueMap) (Some [romanceDawn; strayRow]) (Some [])
    false [] EmptyString 0 [] 0.

(** Every request succeeds, nobody presses stop. *)
Definition calm : Env :=
  mkEnv (inr sheets) (inr [season1; season2]) (inr [season1; season2])
    (fun _ _ _ => None) (fun _ => false).

(** The server refuses the first update request. *)
Definition refusing : Env :=
  mkEnv (inr sheets) (inr [season1; season2]) (inr [season1; season2])
    (fun n _ _ => if bool_decide (n = 0%nat) then Some "Update failed: 500" else None)
    (fun _ => false).

(** The sheets cannot be fetched. *)
Definition offline : Env :=
  mkEnv (inl "HTTP 503") (inr [season1; season2]) (inr [season1; season2])
    (fun _ _ _ => None) (fun _ => false).

(** The user presses stop during the fourth suspension: in a live plex run
    of the season loop over these seasons, the pause that follows the first
    season. *)
Definition stopping : Env :=
  mkEnv (inr sheets) (inr [season1; season2]) (inr [season1; season2])
    (fun _ _ _ => None) (fun n => bool_decide (n = 3%nat)).


End Example.

(** ** Further vocabulary: tallies of an undisturbed loop *)

(** The first characters of every line that a dry run writes for an update it
    would make. *)
Definition dryRunPrefix : string := "      [Dry Run]".

(** Number of dry-run announcements in a log. *)
Definition countDryRun (log : list (string * string)) : nat :=
  length (filter (fun line => startsWith line.2 dryRunPrefix = true) log).

(** Number of lines of the given type in a log. *)
Definition countType (type : string) (log : list (string * string)) : nat :=
  length (filter (fun line => line.1 = type) log).

(** Among [calls], made in this order after [base] earlier calls, the number
    that the server accepts. *)
Fixpoint successes (env : Env) (base : nat) (calls : list (string * Updates.t)) : nat :=
  match calls with
  | [] => 0
  | (itemId, updates) :: rest =>
      (match plexUpdateMetadata env base itemId updates with
       | None => 1
       | Some _ => 0
       end + successes env (S base) rest)%nat
  end.

(** The number of log lines that the loop owes to a list of seasons: one per
    season-level update and one per episode. *)
Definition plannedLines (looseEq : string -> JsNum -> bool) (opts : UpdateOptions.t)
    (seasonMapping : list Row) (seasons : list Season.t) : nat :=
  sum_list_with
    (fun season =>
       (length (seasonTitleCall opts
                  (ApplyOnePaceEdits.findSeasonInfo looseEq seasonMapping season) season) +
        length (seasonDescriptionCall opts
                  (ApplyOnePaceEdits.findSeasonInfo looseEq seasonMapping season) season) +
        length (Season.episodes season))%nat)
    seasons.

(** An undisturbed step that asked for [calls] and wrote [lines] log lines. *)
Definition tallies (env : Env) (opts : UpdateOptions.t)
    (calls : list (string * Updates.t)) (lines : nat) (s s' : State) : Prop :=
  operationCancelled s' = operationCancelled s ∧
  currentService s' = currentService s ∧
  releaseData s' = releaseData s ∧
  length (outputLog s') = (length (outputLog s) + lines)%nat ∧
  (UpdateOptions.dryRun opts = true →
     countDryRun (outputLog s') = (countDryRun (outputLog s) + length calls)%nat) ∧
  (UpdateOptions.dryRun opts = false → currentService s = "plex" →
     updateCalls s' = updateCalls s ++ calls ∧
     totalUpdates s' =
       (totalUpdates s + successes env (length (updateCalls s)) calls)%nat ∧
     (countType "ERROR" (outputLog s') + successes env (length (updateCalls s)) calls =
      countType "ERROR" (outputLog s) + length calls)%nat).

(** ** [PlexAPI.updateMetadata]: the query parameters *)

Module PlexAPI.

(** The pairs appended to [params], in order, before they are encoded into the
    URL: a field is sent when it is there and not empty. *)
Definition updateParams (updates : Updates.t) : list (string * string) :=
  (match Updates.title updates with
   | Some v => if truthy v then [("title", v)] else []
   | None => []
   end) ++
  (match Updates.summary updates with
   | Some v => if truthy v then [("summary", v)] else []
   | None => []
   end) ++
  (match Updates.originallyAvailableAt updates with
   | Some v => if truthy v then [("originallyAvailableAt", v)] else []
   | None => []
   end).

End PlexAPI.

(** The options with the dry-run box set to [b]. *)
Definition withDryRun (b : bool) (opts : UpdateOptions.t) : UpdateOptions.t :=
  UpdateOptions.mk (UpdateOptions.title opts) (UpdateOptions.seasonTitle opts)
    (UpdateOptions.description opts) (UpdateOptions.date opts) (UpdateOptions.posters opts) b.

(** The value sent under [name] among the query parameters, if any. *)
Fixpoint param (name : string) (params : list (string * string)) : option string :=
  match params with
  | [] => None
  | (k, v) :: rest => if bool_decide (k = name) then Some v else param name rest
  end.

(** The catalog's episode once the server has stored the parameters of the
    request made for [updates]: a field that was sent replaces the old one,
    the others stay. *)
Definition episodeAfter (updates : Updates.t) (episode : Episode.t) : Episode.t :=
  let params := PlexAPI.updateParams updates in
  Episode.mk (Episode.id episode)
    (match param "title" params with Some v => Some v | None => Episode.title episode end)
    (Episode.number episode)
    (match param "summary" params with Some v => Some v | None => Episode.summary episode end)
    (match param "originallyAvailableAt" params with
     | Some v => Some v
     | None => Episode.originallyAvailableAt episode
     end).

(** The catalog's season once the server has stored the parameters of the
    request made for [updates]. *)
Definition seasonAfter (updates : Updates.t) (season : Season.t) : Season.t :=
  let params := PlexAPI.updateParams updates in
  Season.mk (Season.id season)
    (match param "title" params with Some v => Some v | None => Season.title season end)
    (Season.number season)
    (match param "summary" params with Some v => Some v | None => Season.summary season end)
    (Season.episodes season).

(** The three sheets held in the state. *)
Definition sheetsOf (s : State) : option (list Row) * option (list Row) * option (list Row) :=
  (seasonMappingData s, episodeData s, releaseData s).

(** ** Further vocabulary: what one sheet row writes into a lookup *)


(** The assignment that an episode row makes, if it makes one. *)
Definition episodeEntry (titleToSeason : gmap string JsNum) (row : Row)
    : option (string * ApplyOnePaceEdits.LookupEntry) :=
  match trim <$> row !! "arc_title", row !! "arc_part", row !! "title_en" with
  | Some arc, Some epPart, Some title =>
      if truthy arc && truthy epPart && truthy title then
        match ApplyOnePaceEdits.seasonNum titleToSeason arc with
        | Some n =>
            Some (ApplyOnePaceEdits.lookupKey n epPart,
                  ApplyOnePaceEdits.mkEntry title (row !! "description_en"))
        | None => None
        end
      else None
  | _, _, _ => None
  end.

(** [row] is the last of [rows] that [write] makes an assignment to [k], and
    it assigns [v]. *)
Definition lastWrite {A V : Type} (write : A → option (string * V)) (rows : list A)
    (k : string) (v : V) : Prop :=
  ∃ before row after,
    rows = before ++ row :: after ∧ write row = Some (k, v) ∧
    Forall (fun later => ∀ v', write later ≠ Some (k, v')) after.

(** One step of a lookup builder: the assignment of the row, if any. *)
Definition writeStep {A V : Type} (write : A → option (string * V))
    (m : gmap string V) (row : A) : gmap string V :=
  match write row with
  | Some (k, v) => <[k := v]> m
  | None => m
  end.

(** ** [Utils.sanitizeFilename] and the file-name matcher *)

Definition CR : ascii := "013"%char.

(** The characters of the class that [sanitizeFilename] removes: backslash,
    slash, colon, asterisk, question mark, double quote, angle brackets and
    the vertical bar. *)
Definition illegalChar (c : ascii) : bool :=
  match N_of_ascii c with
  | 92 | 47 | 58 | 42 | 63 | 34 | 60 | 62 | 124 => true
  | _ => false
  end%N.

(** [s.replace(/[class]/g, empty)]: every character of the class removed. *)
Fixpoint dropChars (p : ascii → bool) (s : string) : string :=
  match s with
  | EmptyString => EmptyString
  | String a s' => if p a then dropChars p s' else String a (dropChars p s')
  end.

Definition sanitizeFilename (filename : string) : string :=
  trim (dropChars illegalChar filename).

(** The text with every line feed preceded by a carriage return. *)
Fixpoint crlf (s : string) : string :=
  match s with
  | EmptyString => EmptyString
  | String c s' =>
      if decide (c = LF) then String CR (String LF (crlf s')) else String c (crlf s')
  end.

(** [a] is [b], possibly followed by a carriage return. *)
Definition sameLine (a b : string) : Prop := a = b ∨ a = b +:+ String CR EmptyString.

Module FilePattern.

(** [\d]. *)
Definition isDigit (c : ascii) : bool :=
  let n := N_of_ascii c in ((48 <=? n) && (n <=? 57))%N.

(** The dot of a pattern: any character but a line terminator. *)
Definition isDot (c : ascii) : bool :=
  let n := N_of_ascii c in negb ((n =? 10) || (n =? 13))%N.

(** A literal character: the remainders after it. *)
Definition literal (c : ascii) (s : string) : list string :=
  match s with
  | String a rest => if decide (a = c) then [rest] else []
  | EmptyString => []
  end.

(** The non-empty runs of [p] at the start of [s], each with what follows it,
    shortest first: the order in which a lazy [+?] tries them. *)
Fixpoint spans1 (p : ascii → bool) (s : string) : list (string * string) :=
  match s with
  | EmptyString => []
  | String c s' =>
      if p c then (String c EmptyString, s') :: ((fun m => (String c m.1, m.2)) <$> spans1 p s')
      else []
  end.

(** Longest first: the order in which a greedy [+] tries them. *)
Definition greedy1 (p : ascii → bool) (s : string) : list (string * string) :=
  reverse (spans1 p s).

(** [\d{1,2}]: two digits before one. *)
Definition digits12 (s : string) : list (string * string) :=
  reverse (take 2 (spans1 isDigit s)).

(** The matches of [FILE_PATTERNS.onePace] that start at the start of [s], in
    the order in which backtracking finds them, as the pair of the groups
    [arc] and [episode].  The flag [i] changes nothing: the pattern has no
    letter. *)
Definition matchAt (s : string) : list (string * string) :=
  s0 ← literal "["%char s;
  m1 ← greedy1 isDigit s0;
  s2 ← ((s' ← literal "-"%char m1.2; m ← greedy1 isDigit s'; [m.2]) ++ [m1.2]);
  s3 ← literal "]"%char s2;
  m4 ← greedy1 isWhitespace s3;
  arc ← spans1 isDot m4.2;
  m6 ← greedy1 isWhitespace arc.2;
  episode ← digits12 m6.2;
  s8 ← ((m ← greedy1 isWhitespace episode.2; title ← spans1 isDot m.2; [title.2])
        ++ [episode.2]);
  _ ← literal "."%char s8;
  [(arc.1, episode.1)].

(** [FILE_PATTERNS.onePace.exec(fileName)]: the first match at the leftmost
    position that has one. *)
Fixpoint exec (fileName : string) : option (string * string) :=
  match head (matchAt fileName) with
  | Some groups => Some groups
  | None =>
      match fileName with
      | EmptyString => None
      | String _ rest => exec rest
      end
  end.

End FilePattern.

(** ** The file loop of [OnePaceManager.renameMediaFiles] *)

Module RenameLoop.

Import RenameMediaFiles.

(** [String(value)] of a season value. *)
Definition valueToString (v : SeasonValue) : string :=
  match v with
  | Text s => s
  | Num n => toString n
  end.

(** The expression bound to [seasonNum] in this function's lookup builder. *)
Definition seasonNum (titleToSeason : gmap string SeasonValue) (arc : string)
    : option SeasonValue :=
  if bool_decide (arc = "Specials") || bool_decide (arc = "One Piece Fan Letter")
  then Some (Num (Int 0))
  else match titleToSeason !! toLowerCase arc with
       | Some v => if truthyValue v then Some v else None
       | None => None
       end.

(** The body of [this.state.episodeData.forEach]: the lookup holds titles. *)
Definition addEpisodeRow (titleToSeason : gmap string SeasonValue)
    (episodeLookup : gmap string string) (row : Row) : gmap string string :=
  match trim <$> row !! "arc_title", row !! "arc_part", row !! "title_en" with
  | Some arc, Some epPart, Some title =>
      if truthy arc && truthy epPart && truthy title then
        match seasonNum titleToSeason arc with
        | Some v => <[valueToString v +:+ "-" +:+ epPart := title]> episodeLookup
        | None => episodeLookup
        end
      else episodeLookup
  | _, _, _ => episodeLookup
  end.

Definition buildEpisodeLookup (titleToSeason : gmap string SeasonValue)
    (episodeData : list Row) : gmap string string :=
  foldl (addEpisodeRow titleToSeason) ∅ episodeData.

(** [fileName.substring(fileName.lastIndexOf("."))]: from the last dot on, or
    the whole name when it has no dot. *)
Fixpoint fileExt (fileName : string) : string :=
  match fileName with
  | EmptyString => EmptyString
  | String c rest => if hasChar "."%char rest then fileExt rest else fileName
  end.

Definition videoExtensions : list string :=
  [".mkv"; ".mp4"; ".avi"; ".m4v"; ".mov"; ".wmv"; ".flv"; ".webm"].

Definition isVideo (fileName : string) : bool :=
  bool_decide (toLowerCase (fileExt fileName) ∈ videoExtensions).

(** The name proposed for a file. *)
Definition newName (seasonNumber : SeasonValue) (episodeNumber : JsNum)
    (epTitle ext : string) : string :=
  "One Pace - S" +:+ padStart2 (valueToString seasonNumber) +:+
  "E" +:+ padStart2 (toString episodeNumber) +:+
  " - " +:+ sanitizeFilename epTitle +:+ ext.

(** The local variables of the loop beside the state. *)
Record Counts : Type := mkCounts {
  processedCount : nat;
  renamedCount : nat
}.

Section Loop.

Variable env : Env.
Variable titleToSeason : gmap string SeasonValue.
Variable episodeLookup : gmap string string.

(** The body of [for (const file of this.state.processedFiles)]. *)
Definition processFile (fileName : string) (acc : State * Counts) : State * Counts :=
  let '(s, counts) := acc in
  if negb (isVideo fileName) then (s, counts)
  else
    let counts := mkCounts (S (processedCount counts)) (renamedCount counts) in
    match FilePattern.exec fileName with
    | None =>
        (writeOutput ("Could not parse '" +:+ fileName +:+ "'. Skipping.") "WARNING" s, counts)
    | Some (arc, episode) =>
        let arcTitle := trim arc in
        let episodeNumber := parseInt episode in
        match seasonNumber titleToSeason arcTitle with
        | None =>
            (writeOutput ("Unknown arc '" +:+ arcTitle +:+ "' in '" +:+ fileName +:+
                          "'. Skipping.") "WARNING" s, counts)
        | Some season =>
            let key := valueToString season +:+ "-" +:+ toString episodeNumber in
            if truthyOpt (episodeLookup !! key) then
              let epTitle := default EmptyString (episodeLookup !! key) in
              let proposed := newName season episodeNumber epTitle (fileExt fileName) in
              if bool_decide (fileName = proposed) then
                (await env (writeOutput ("Already correct: '" +:+ fileName +:+ "'") "INFO" s),
                 counts)
              else
                (await env (writeOutput ("Would rename '" +:+ fileName +:+ "' → '" +:+
                                         proposed +:+ "'") "SUCCESS" s),
                 mkCounts (processedCount counts) (S (renamedCount counts)))
            else
              (writeOutput ("No episode title for " +:+ key +:+ ". Skipping.") "WARNING" s,
               counts)
        end
    end.

Definition fileLoop (files : list string) (acc : State * Counts) : State * Counts :=
  foldl (fun acc fileName => processFile fileName acc) acc files.

End Loop.

(** The two lines that close a run of the loop. *)
Definition report (counts : Counts) (s : State) : State :=
  setStatus "File renaming completed"
    (writeOutput "Note: This is a simulation - actual files are not modified in browser" "INFO"
       (writeOutput ("Processed " +:+ toString (Int (Z.of_nat (processedCount counts))) +:+
                     " files, " +:+ toString (Int (Z.of_nat (renamedCount counts))) +:+
                     " would be renamed") "SUCCESS" s)).

(** [renameMediaFiles()] on the names of the files [processedFiles] of
    [this.state]; the second component is the final value of the two counters
    when the loop was reached. *)
Definition renameMediaFiles (env : Env) (processedFiles : list string) (s : State)
    : State * option Counts :=
  match processedFiles with
  | [] => (writeOutput "No media files selected" "ERROR" s, None)
  | _ :: _ =>
      let s := writeOutput "Starting file rename operation..." "INFO" s in
      let s := setStatus "Loading metadata from Google Sheets..." s in
      let loaded :=
        if bool_decide (is_Some (seasonMappingData s)) && bool_decide (is_Some (episodeData s))
        then (s, None)
        else
          let s := await env s in
          match getAllData env with
          | inl message => (s, Some message)
          | inr sheetsData =>
              (writeOutput "Loaded metadata from Google Sheets" "SUCCESS"
                 (setSheets sheetsData s), None)
          end in
      match loaded with
      | (s, Some message) =>
          (setStatus "Rename operation failed"
             (writeOutput ("Error during rename operation: " +:+ message) "ERROR" s),
           None)
      | (s, None) =>
          match seasonMappingData s, episodeData s with
          | Some seasonMapping, Some episodeRows =>
              let titleToSeason := buildTitleToSeason seasonMapping in
              let episodeLookup := buildEpisodeLookup titleToSeason episodeRows in
              let '(s, counts) :=
                fileLoop env titleToSeason episodeLookup processedFiles (s, mkCounts 0 0) in
              (report counts s, Some counts)
          | _, _ =>
              (setStatus "Rename operation failed"
                 (writeOutput ("Error during rename operation: " +:+
                               ApplyOnePaceEdits.typeError) "ERROR" s),
               None)
          end
      end
  end.

End RenameLoop.

(** Every character of [s] satisfies [p]. *)
Fixpoint allChars (p : ascii → bool) (s : string) : bool :=
  match s with
  | EmptyString => true
  | String c s' => p c && allChars p s'
  end.

(** The two lines that [RenameLoop.report] writes. *)
Definition reportLines (counts : RenameLoop.Counts) : list (string * string) :=
  [("SUCCESS", "Processed " +:+ toString (Int (Z.of_nat (RenameLoop.processedCount counts))) +:+
               " files, " +:+ toString (Int (Z.of_nat (RenameLoop.renamedCount counts))) +:+
               " would be renamed");
   ("INFO", "Note: This is a simulation - actual files are not modified in browser")].

(** What the file loop keeps and what it counts, from [acc] to [acc']: no
    update call, no change of the counter of updates or of the sheets; the
    number of video files among [files] added to [processedCount], and at most
    as many to [renamedCount]. *)
Definition renameStep (files : list string) (acc acc' : State * RenameLoop.Counts) : Prop :=
  updateCalls acc'.1 = updateCalls acc.1 ∧
  totalUpdates acc'.1 = totalUpdates acc.1 ∧
  sheetsOf acc'.1 = sheetsOf acc.1 ∧
  RenameLoop.processedCount acc'.2 =
    (RenameLoop.processedCount acc.2 +
     length (filter (fun f => RenameLoop.isVideo f = true) files))%nat ∧
  (RenameLoop.renamedCount acc.2 ≤ RenameLoop.renamedCount acc'.2)%nat ∧
  (RenameLoop.renamedCount acc'.2 ≤
   RenameLoop.renamedCount acc.2 +
   length (filter (fun f => RenameLoop.isVideo f = true) files))%nat.

(** ** Properties of the tabular parser *)

Section Parser.

Import Utils.

Lemma hasChar_trimStart c s : hasChar c (trimStart s) = true → hasChar c s = true.
Proof.
  induction s as [|a s IH]; simpl; [done|].
  destruct (isWhitespace a); simpl; intros H; [|done].
  rewrite IH by done. apply orb_true_r.
Qed.

Lemma hasChar_trimEnd c s : hasChar c (trimEnd s) = true → hasChar c s = true.
Proof.
  induction s as [|a s IH]; simpl; [done|].
  destruct (trimEnd s) as [|b t] eqn:E.
  - destruct (isWhitespace a); simpl; [done|].
    rewrite orb_false_r. by intros ->.
  - simpl in *. intros H. apply orb_true_iff in H as [H|H].
    + by rewrite H.
    + rewrite IH by done. apply orb_true_r.
Qed.

Lemma hasChar_trim c s : hasChar c s = false → hasChar c (trim s) = false.
Proof.
  intros H. destruct (hasChar c (trim s)) eqn:E; [|done].
  apply hasChar_trimEnd, hasChar_trimStart in E. congruence.
Qed.

Lemma hasChar_removeChar_same c s : hasChar c (removeChar c s) = false.
Proof.
  induction s as [|a s IH]; simpl; [done|].
  destruct (decide (a = c)); simpl; [done|].
  by rewrite bool_decide_eq_false_2.
Qed.

Lemma hasChar_removeChar c d s : hasChar c s = false → hasChar c (removeChar d s) = false.
Proof.
  induction s as [|a s IH]; simpl; [done|].
  intros H. apply orb_false_iff in H as [H1 H2].
  destruct (decide (a = d)); simpl; [auto|].
  rewrite H1. auto.
Qed.

Lemma split_no_sep sep s : Forall (fun piece => hasChar sep piece = false) (split sep s).
Proof.
  induction s as [|a s IH]; simpl.
  - by constructor.
  - destruct (decide (a = sep)) as [->|Hne].
    + by constructor.
    + destruct (split sep s) as [|piece pieces]; inversion IH; subst;
        (constructor; [|done]); simpl; by rewrite bool_decide_eq_false_2.
Qed.

Lemma cells_clean line : Forall clean (cells line).
Proof.
  unfold cells. apply Forall_fmap.
  eapply Forall_impl; [apply (split_no_sep comma)|].
  intros piece H. split; simpl.
  - apply hasChar_removeChar_same.
  - by apply hasChar_removeChar, hasChar_trim.
Qed.

Lemma fillRow_clean headers index values obj :
  Forall clean headers → Forall clean values →
  map_Forall (fun k v => clean k ∧ clean v) obj →
  map_Forall (fun k v => clean k ∧ clean v) (fillRow headers index values obj).
Proof.
  intros Hh Hv. revert index obj.
  induction Hh as [|header rest Hc Hrest IH]; intros index obj Hobj; simpl; [done|].
  apply IH. apply map_Forall_insert_2; [|done].
  split; [done|].
  destruct (values !! index) as [v|] eqn:E; simpl; [|done].
  eapply Forall_lookup_1; eauto.
Qed.





End Parser.



(** C10. No key and no value of a parsed row holds a double quote or a comma:
    every line is cut at every comma and every piece loses its double quotes.
    A quoted field with a comma inside therefore lands in two cells. *)
Theorem parseCSV_cells_clean (csvText : string) :
  Forall (map_Forall (fun k v => clean k ∧ clean v)) (Utils.parseCSV csvText) ∧
  Utils.parseCSV Example.quotedText = [ <["a" := "x"]> (<["b" := "y"]> ∅) ].
Proof.
  split.
  - unfold Utils.parseCSV. case_decide; [constructor|].
    apply Forall_fmap, Forall_forall. intros line _. unfold Utils.parseLine. simpl.
    apply fillRow_clean; try apply cells_clean.
    apply map_Forall_empty.
  - vm_compute. reflexivity.
Qed.

(** ** Properties of the lookups *)

Section Lookups.

Import ApplyOnePaceEdits.

Lemma app_String a s t : String a s +:+ t = String a (s +:+ t).
Proof. reflexivity. Qed.

Lemma startsWith_spec s p : startsWith s p = true ↔ ∃ rest, s = p +:+ rest.
Proof.
  revert s. induction p as [|a p IH]; intros s; simpl.
  - split; [|done]. intros _. by exists s.
  - destruct s as [|b s].
    + split; [done|]. intros [rest H]. by rewrite app_String in H.
    + destruct (decide (a = b)) as [->|Hne].
      * rewrite IH. split; intros [rest H]; exists rest.
        -- rewrite app_String. by f_equal.
        -- rewrite app_String in H. by injection H.
      * split; [done|]. intros [rest H]. rewrite app_String in H. congruence.
Qed.

Lemma includes_spec s sub :
  includes s sub = true ↔ ∃ before after, s = before +:+ sub +:+ after.
Proof.
  induction s as [|c s IH]; simpl.
  - rewrite orb_false_r, startsWith_spec. split.
    + intros [rest H]. by exists EmptyString, rest.
    + intros [[|a before] [after H]]; [by exists after|].
      by rewrite app_String in H.
  - rewrite orb_true_iff, IH, startsWith_spec. split.
    + intros [[rest H]|[before [after H]]].
      * by exists EmptyString, rest.
      * exists (String c before), after. rewrite app_String. by f_equal.
    + intros [[|a before] [after H]].
      * left. by exists after.
      * right. rewrite app_String in H. injection H as -> H. by exists before, after.
Qed.

Lemma releaseMatches_spec n row :
  releaseMatches n row = true ↔ labelContains (padStart2 (toString n)) row.
Proof.
  unfold releaseMatches, labelContains. destruct (row !! "One Pace Episode") as [label|].
  - rewrite includes_spec. split.
    + intros (before & after & H). by exists label, before, after.
    + intros (l & before & after & [= <-] & H). by exists before, after.
  - split; [done|]. by intros (l & before & after & H & _).
Qed.

Lemma find_first {A} (p : A → bool) (l : list A) (x : A) :
  List.find p l = Some x ↔
  ∃ before after, l = before ++ x :: after ∧ p x = true ∧ Forall (fun y => p y = false) before.
Proof.
  induction l as [|y l IH]; simpl.
  - split; [done|]. intros ([|??] & after & H & _); done.
  - destruct (p y) eqn:E.
    + split.
      * intros [= ->]. by exists [], l.
      * intros ([|z before] & after & H & Hx & Hb).
        -- by injection H as ->.
        -- injection H as -> _. inversion Hb; congruence.
    + rewrite IH. split.
      * intros (before & after & -> & Hx & Hb). exists (y :: before), after.
        by repeat constructor.
      * intros ([|z before] & after & H & Hx & Hb).
        -- injection H as ->. congruence.
        -- injection H as -> ->. inversion Hb. by exists before, after.
Qed.

Lemma lookupKey_catalogKey n epPart e :
  lookupKey n epPart = catalogKey n e ↔ epPart = toString e.
Proof.
  unfold lookupKey, catalogKey. split; [|by intros ->].
  intros H. apply String.app_inj in H. by apply (String.app_inj "-") in H.
Qed.

(** At the site of the lookup builder both sentinels resolve to season 0,
    whatever the season map holds. *)
Lemma seasonNum_sentinels (titleToSeason : gmap string JsNum) :
  seasonNum titleToSeason "Specials" = Some (Int 0) ∧
  seasonNum titleToSeason "One Piece Fan Letter" = Some (Int 0).
Proof. split; reflexivity. Qed.

(** An arc title that is no sentinel and has no entry resolves to [null]. *)
Lemma seasonNum_absent (titleToSeason : gmap string JsNum) (arc : string) :
  arc ≠ "Specials" → arc ≠ "One Piece Fan Letter" →
  titleToSeason !! toLowerCase arc = None →
  seasonNum titleToSeason arc = None.
Proof.
  intros H1 H2 H. unfold seasonNum.
  rewrite !bool_decide_eq_false_2 by done. simpl. by rewrite H.
Qed.


End Lookups.

(** C1, as the code has it.  The release row chosen for episode number [n] is
    the first row whose label cell contains, as a substring, the decimal form
    of [n] padded with a zero to two digits.  The containment is plain: the
    token [05] of episode 5 occurs in the label [Episode 105], and that row is
    chosen for episode 5 when no earlier row matches. *)
Theorem findRelease_first_containing (rows : list Row) (n : JsNum) (r : Row) :
  (ApplyOnePaceEdits.findRelease (Some rows) n = Some r ↔
   ∃ before after, rows = before ++ r :: after ∧
     labelContains (padStart2 (toString n)) r ∧
     Forall (fun row => ¬ labelContains (padStart2 (toString n)) row) before) ∧
  Forall (fun z => padStart2 (toString (Int z)) = "0" +:+ toString (Int z)) (seqZ 0 10) ∧
  padStart2 (toString (Int 5)) = "05" ∧
  ApplyOnePaceEdits.findRelease (Some [Example.row105]) (Int 5) = Some Example.row105.
Proof.
  split; [|split; [|split]].
  - simpl. rewrite find_first. split.
    + intros (before & after & -> & Hx & Hb). exists before, after.
      split; [done|]. split; [by apply releaseMatches_spec|].
      eapply Forall_impl; [exact Hb|]. intros row H Hc.
      apply releaseMatches_spec in Hc. congruence.
    + intros (before & after & -> & Hx & Hb). exists before, after.
      split; [done|]. split; [by apply releaseMatches_spec|].
      eapply Forall_impl; [exact Hb|]. intros row H. simpl in H.
      destruct (ApplyOnePaceEdits.releaseMatches n row) eqn:E; [|done].
      by apply releaseMatches_spec in E.
  - vm_compute. repeat constructor.
  - reflexivity.
  - vm_compute. reflexivity.
Qed.

(** C1, counterexample.  The row labeled [Episode 105] satisfies the predicate
    of the release lookup for episode number 5 and is the row returned. *)
Lemma episode_105_matched_for_5 :
  ¬ (ApplyOnePaceEdits.releaseMatches (Int 5) Example.row105 = false) ∧
  ApplyOnePaceEdits.findRelease (Some [Example.row105]) (Int 5) = Some Example.row105.
Proof. split; vm_compute; [discriminate|reflexivity]. Qed.

(** C3, as the code has it.  A row that enters the episode lookup is stored
    under the resolved season number, a dash, and the text of its [arc_part]
    cell as it stands; that key is the key of the catalog's episode [e] of
    that season exactly when the cell text is the decimal form of [e]. *)
Theorem addEpisodeRow_key (titleToSeason : gmap string JsNum)
    (episodeLookup : gmap string ApplyOnePaceEdits.LookupEntry) (row : Row)
    (arcCell epPart title : string) (n : JsNum) :
  row !! "arc_title" = Some arcCell →
  row !! "arc_part" = Some epPart →
  row !! "title_en" = Some title →
  trim arcCell ≠ EmptyString → epPart ≠ EmptyString → title ≠ EmptyString →
  ApplyOnePaceEdits.seasonNum titleToSeason (trim arcCell) = Some n →
  ApplyOnePaceEdits.addEpisodeRow titleToSeason episodeLookup row =
    <[toString n +:+ "-" +:+ epPart :=
        ApplyOnePaceEdits.mkEntry title (row !! "description_en")]> episodeLookup ∧
  ∀ e, toString n +:+ "-" +:+ epPart = ApplyOnePaceEdits.catalogKey n e ↔ epPart = toString e.
Proof.
  intros Ha Hp Ht Hane Hpne Htne Hn. split.
  - unfold ApplyOnePaceEdits.addEpisodeRow. rewrite Ha, Hp, Ht. simpl. rewrite Hn.
    destruct (trim arcCell); [done|]. destruct epPart; [done|]. destruct title; [done|].
    reflexivity.
  - intros e. apply lookupKey_catalogKey.
Qed.

Lemma addEpisodeRow_key_witness :
  ApplyOnePaceEdits.addEpisodeRow (ApplyOnePaceEdits.buildTitleToSeason Example.eastBlueMap)
    ∅ Example.paddedRow =
    <[toString (Int 1) +:+ "-" +:+ "03" :=
        ApplyOnePaceEdits.mkEntry "Romance Dawn" (Example.paddedRow !! "description_en")]> ∅ ∧
  ∀ e, toString (Int 1) +:+ "-" +:+ "03" = ApplyOnePaceEdits.catalogKey (Int 1) e ↔
       "03" = toString e.
Proof.
  apply (addEpisodeRow_key (ApplyOnePaceEdits.buildTitleToSeason Example.eastBlueMap) ∅
           Example.paddedRow "East Blue" "03" "Romance Dawn" (Int 1));
    try reflexivity; discriminate.
Defined.

(** C3, counterexample.  The cell [03] reads as the integer 3, yet the row is
    stored under [1-03], and the catalog's key of episode 3 of season 1 finds
    nothing. *)
Lemma padded_cell_misses_catalog_key :
  parseInt "03" = Int 3 ∧
  ApplyOnePaceEdits.buildEpisodeLookup
    (ApplyOnePaceEdits.buildTitleToSeason Example.eastBlueMap) [Example.paddedRow]
    !! ApplyOnePaceEdits.catalogKey (Int 1) (Int 3) = None ∧
  ApplyOnePaceEdits.buildEpisodeLookup
    (ApplyOnePaceEdits.buildTitleToSeason Example.eastBlueMap) [Example.paddedRow]
    !! "1-03" = Some (ApplyOnePaceEdits.mkEntry "Romance Dawn" None).
Proof. repeat split; vm_compute; reflexivity. Qed.

(** C6, at the failing input.  The resolution of the file-name matcher knows
    the sentinel [Specials] only: with a season map that has no such row, the
    arc title [One Piece Fan Letter] resolves to [null] there, while the
    lookup builder resolves the same title to season 0. *)
Theorem renameMediaFiles_fan_letter_unresolved :
  RenameMediaFiles.seasonNumber (RenameMediaFiles.buildTitleToSeason Example.eastBlueMap)
    "One Piece Fan Letter" = None ∧
  RenameMediaFiles.seasonNumber (RenameMediaFiles.buildTitleToSeason Example.eastBlueMap)
    "Specials" = Some (RenameMediaFiles.Num (Int 0)) ∧
  RenameMediaFiles.seasonNumber (RenameMediaFiles.buildTitleToSeason Example.eastBlueMap)
    "Unknown Arc X" = None ∧
  ApplyOnePaceEdits.seasonNum (ApplyOnePaceEdits.buildTitleToSeason Example.eastBlueMap)
    "One Piece Fan Letter" = Some (Int 0).
Proof. repeat split; vm_compute; reflexivity. Qed.

(** ** Properties of the reconciliation run *)

Section Transitions.

Import ApplyOnePaceEdits.

Lemma sameUpdates_refl s : sameUpdates s s.
Proof. done. Qed.

Lemma sameUpdates_trans s1 s2 s3 : sameUpdates s1 s2 → sameUpdates s2 s3 → sameUpdates s1 s3.
Proof. intros [??] [??]. split; congruence. Qed.

Lemma sameUpdates_await env s : sameUpdates s (await env s).
Proof. unfold await. by destruct (stopPressed env (awaits s)). Qed.

Lemma finish_spec s :
  outputLog (finish s) = outputLog s ++ summaryLines (totalUpdates s) ∧
  statusMessage (finish s) =
    "Completed - " +:+ toString (Int (Z.of_nat (totalUpdates s))) +:+ " updates applied" ∧
  updateCalls (finish s) = updateCalls s ∧ totalUpdates (finish s) = totalUpdates s.
Proof.
  unfold finish, summaryLines, separator. simpl. by rewrite <- !app_assoc.
Qed.

Lemma loadSheets_calls env s : updateCalls (loadSheets env s).1 = updateCalls s.
Proof.
  unfold loadSheets. destruct (_ && _); [done|].
  destruct (getAllData env); simpl; apply sameUpdates_await.
Qed.

Lemma fetchShowMetadata_calls env s : updateCalls (fetchShowMetadata env s).1 = updateCalls s.
Proof.
  unfold fetchShowMetadata. repeat case_bool_decide; simpl; try done; apply sameUpdates_await.
Qed.

(** The three shapes of the guarded update block. *)

Lemma liveUpdate_other env itemId updates ok failPrefix pause s :
  currentService s ≠ "plex" →
  liveUpdate env itemId updates ok failPrefix pause s =
  pauseIf env pause (setTotalUpdates (S (totalUpdates s)) (writeOutput ok "SUCCESS" s)).
Proof.
  intros Hp. unfold liveUpdate. rewrite bool_decide_eq_false_2 by done. by destruct pause.
Qed.

Lemma liveUpdate_plex_failed env itemId updates ok failPrefix pause s message :
  currentService s = "plex" →
  plexUpdateMetadata env (length (updateCalls s)) itemId updates = Some message →
  liveUpdate env itemId updates ok failPrefix pause s =
  writeOutput (failPrefix +:+ message) "ERROR" (await env (recordCall itemId updates s)).
Proof.
  intros Hp Ho. unfold liveUpdate. rewrite bool_decide_eq_true_2 by done. by rewrite Ho.
Qed.

Lemma liveUpdate_plex_ok env itemId updates ok failPrefix pause s :
  currentService s = "plex" →
  plexUpdateMetadata env (length (updateCalls s)) itemId updates = None →
  liveUpdate env itemId updates ok failPrefix pause s =
  let s1 := await env (recordCall itemId updates s) in
  pauseIf env pause (setTotalUpdates (S (totalUpdates s1)) (writeOutput ok "SUCCESS" s1)).
Proof.
  intros Hp Ho. unfold liveUpdate. rewrite bool_decide_eq_true_2 by done. rewrite Ho.
  by destruct pause.
Qed.

End Transitions.

(** *** Dry runs *)

Section DryRun.

Import ApplyOnePaceEdits.

Variable looseEq : string -> JsNum -> bool.
Variable env : Env.
Variable opts : UpdateOptions.t.
Hypothesis Hdry : UpdateOptions.dryRun opts = true.

Lemma dry_updateSeasonTitle info season s :
  sameUpdates s (updateSeasonTitle env opts info season s).
Proof.
  unfold updateSeasonTitle. rewrite Hdry.
  destruct info as [info|]; [|done]. destruct (info !! "title_en"); [|done].
  by destruct (_ && _).
Qed.

Lemma dry_updateSeasonDescription info season s :
  sameUpdates s (updateSeasonDescription env opts info season s).
Proof.
  unfold updateSeasonDescription. rewrite Hdry.
  destruct info as [info|]; [|done]. destruct (info !! "description_en"); [|done].
  by destruct (_ && _).
Qed.

Lemma dry_processEpisode lookup season episode s :
  sameUpdates s (processEpisode env opts lookup season episode s).
Proof.
  unfold processEpisode. rewrite Hdry.
  destruct (lookup !! _); [|done]. by destruct (willUpdate _).
Qed.

Lemma dry_episodeLoop lookup season episodes s :
  sameUpdates s (episodeLoop env opts lookup season episodes s).
Proof.
  revert s. induction episodes as [|e rest IH]; intros s; simpl; [done|].
  destruct (operationCancelled s); [done|].
  eapply sameUpdates_trans; [apply dry_processEpisode|apply IH].
Qed.

Lemma dry_processSeason sm lookup season s :
  sameUpdates s (processSeason looseEq env opts sm lookup season s).
Proof.
  unfold processSeason.
  eapply sameUpdates_trans; [apply dry_updateSeasonTitle|].
  eapply sameUpdates_trans; [apply dry_updateSeasonDescription|].
  eapply sameUpdates_trans; [apply dry_episodeLoop|].
  apply sameUpdates_await.
Qed.

Lemma dry_seasonLoop sm lookup seasons s :
  sameUpdates s (seasonLoop looseEq env opts sm lookup seasons s).
Proof.
  revert s. induction seasons as [|x rest IH]; intros s; simpl; [done|].
  destruct (operationCancelled s); [done|].
  eapply sameUpdates_trans; [apply dry_processSeason|apply IH].
Qed.

End DryRun.

(** *** Undisturbed live runs *)

Section Live.

Import ApplyOnePaceEdits.

Variable looseEq : string -> JsNum -> bool.
Variable env : Env.
Variable opts : UpdateOptions.t.
Hypothesis Hlive : UpdateOptions.dryRun opts = false.
Hypothesis HnoStop : noStop env.













End Live.

(** *** Every run: what grows, and by what *)

Lemma extends_refl s : extends s s.
Proof.
  split; [done|]. split.
  - exists []. by rewrite app_nil_r.
  - exists []. by rewrite app_nil_r.
Qed.

Lemma extends_trans s1 s2 s3 : extends s1 s2 → extends s2 s3 → extends s1 s3.
Proof.
  intros (Hs & (l1 & Hl1 & Hn1) & (a1 & Ha1 & Hk1)) (Hs' & (l2 & Hl2 & Hn2) & (a2 & Ha2 & Hk2)).
  split; [congruence|]. split.
  - exists (l1 ++ l2). split; [by rewrite Hl2, Hl1, app_assoc|].
    intros Hx. rewrite Hn1 by done. by rewrite Hn2 by congruence.
  - exists (a1 ++ a2). split; [by rewrite Ha2, Ha1, app_assoc|]. by apply Forall_app.
Qed.

Lemma extends_writeOutput m t s : knownLine (t, m) → extends s (writeOutput m t s).
Proof.
  intros Hk. split; [done|]. split.
  - exists []. by rewrite app_nil_r.
  - exists [(t, m)]. split; [done|]. by constructor.
Qed.

Lemma knownLine_other t m : t ≠ "WARNING" → knownLine (t, m).
Proof. intros H Hw. done. Qed.

Lemma extends_quiet s s' :
  currentService s' = currentService s → updateCalls s' = updateCalls s →
  outputLog s' = outputLog s → extends s s'.
Proof.
  intros H1 H2 H3. split; [done|]. split.
  - exists []. by rewrite app_nil_r.
  - exists []. by rewrite app_nil_r.
Qed.

Ltac peel lem := eapply extends_trans; [|apply lem].
Ltac peel_write :=
  eapply extends_trans; [|apply extends_writeOutput; by apply knownLine_other].

Section Extends.

Import ApplyOnePaceEdits.

Variable looseEq : string -> JsNum -> bool.
Variable env : Env.
Variable opts : UpdateOptions.t.


Lemma extends_setTotalUpdates n s : extends s (setTotalUpdates n s).
Proof. by apply extends_quiet. Qed.



Lemma extends_await s : extends s (await env s).
Proof.
  unfold await. destruct (stopPressed env (awaits s)).
  - split; [done|]. split.
    + exists []. by rewrite app_nil_r.
    + exists [("WARNING", "Cancelling operation...")]. split; [done|].
      constructor; [|done]. intros _. by left.
  - by apply extends_quiet.
Qed.

Lemma extends_recordCall itemId updates s :
  currentService s = "plex" → extends s (recordCall itemId updates s).
Proof.
  intros Hp. split; [done|]. split.
  - exists [(itemId, updates)]. split; [done|]. congruence.
  - exists []. by rewrite app_nil_r.
Qed.

Lemma extends_counted ok pause s :
  extends s (pauseIf env pause
               (setTotalUpdates (S (totalUpdates s)) (writeOutput ok "SUCCESS" s))).
Proof.
  unfold pauseIf. destruct pause; [peel extends_await|]; peel extends_setTotalUpdates;
    apply extends_writeOutput; by apply knownLine_other.
Qed.

Lemma extends_liveUpdate itemId updates ok failPrefix pause s :
  extends s (liveUpdate env itemId updates ok failPrefix pause s).
Proof.
  destruct (decide (currentService s = "plex")) as [Hp|Hp].
  - destruct (plexUpdateMetadata env (length (updateCalls s)) itemId updates) as [m|] eqn:Ho.
    + rewrite (liveUpdate_plex_failed _ _ _ _ _ _ _ m) by done.
      peel_write. peel extends_await. by apply extends_recordCall.
    + rewrite liveUpdate_plex_ok by done. cbv zeta.
      peel extends_counted. peel extends_await. by apply extends_recordCall.
  - rewrite liveUpdate_other by done. apply extends_counted.
Qed.

Lemma extends_updateSeasonTitle info season s :
  extends s (updateSeasonTitle env opts info season s).
Proof.
  unfold updateSeasonTitle.
  destruct info as [info|]; [|apply extends_refl].
  destruct (info !! "title_en"); [|apply extends_refl].
  destruct (_ && _); [|apply extends_refl].
  destruct (UpdateOptions.dryRun opts); [|apply extends_liveUpdate].
  apply extends_writeOutput. by apply knownLine_other.
Qed.

Lemma extends_updateSeasonDescription info season s :
  extends s (updateSeasonDescription env opts info season s).
Proof.
  unfold updateSeasonDescription.
  destruct info as [info|]; [|apply extends_refl].
  destruct (info !! "description_en"); [|apply extends_refl].
  destruct (_ && _); [|apply extends_refl].
  destruct (UpdateOptions.dryRun opts); [|apply extends_liveUpdate].
  apply extends_writeOutput. by apply knownLine_other.
Qed.

Lemma extends_processEpisode lookup season episode s :
  extends s (processEpisode env opts lookup season episode s).
Proof.
  unfold processEpisode. destruct (lookup !! _).
  - destruct (willUpdate _).
    + destruct (UpdateOptions.dryRun opts); [|apply extends_liveUpdate].
      apply extends_writeOutput. by apply knownLine_other.
    + apply extends_writeOutput. by apply knownLine_other.
  - apply extends_writeOutput. intros _. right. right. eauto.
Qed.

Lemma extends_episodeLoop lookup season episodes s :
  extends s (episodeLoop env opts lookup season episodes s).
Proof.
  revert s. induction episodes as [|e rest IH]; intros s; simpl; [apply extends_refl|].
  destruct (operationCancelled s); [apply extends_refl|].
  eapply extends_trans; [apply extends_processEpisode|apply IH].
Qed.

Lemma extends_processSeason sm lookup season s :
  extends s (processSeason looseEq env opts sm lookup season s).
Proof.
  unfold processSeason.
  eapply extends_trans; [apply extends_updateSeasonTitle|].
  eapply extends_trans; [apply extends_updateSeasonDescription|].
  eapply extends_trans; [apply extends_episodeLoop|].
  apply extends_await.
Qed.

Lemma extends_seasonLoop sm lookup seasons s :
  extends s (seasonLoop looseEq env opts sm lookup seasons s).
Proof.
  revert s. induction seasons as [|x rest IH]; intros s; simpl; [apply extends_refl|].
  destruct (operationCancelled s).
  - apply extends_writeOutput. intros _. right. by left.
  - eapply extends_trans; [apply extends_processSeason|apply IH].
Qed.






(** Once the flag is up at a season boundary, the remaining seasons add at
    most the cancellation warning. *)
Lemma seasonLoop_cancelled sm lookup pre post s :
  operationCancelled (seasonLoop looseEq env opts sm lookup pre s) = true →
  seasonLoop looseEq env opts sm lookup (pre ++ post) s =
    seasonLoop looseEq env opts sm lookup pre s ∨
  seasonLoop looseEq env opts sm lookup (pre ++ post) s =
    writeOutput cancelWarning.2 cancelWarning.1
      (seasonLoop looseEq env opts sm lookup pre s).
Proof.
  revert s. induction pre as [|x pre IH]; intros s Hc; simpl in *.
  - destruct post as [|y post]; simpl; [by left|]. rewrite Hc. by right.
  - destruct (operationCancelled s); [by left|]. by apply IH.
Qed.

End Extends.

(** *** The prelude of a run and its three exits *)

Lemma prelude_refl s : prelude s s.
Proof. split; [done|]. split; [done|]. exists []. by rewrite app_nil_r. Qed.

Lemma prelude_trans s1 s2 s3 : prelude s1 s2 → prelude s2 s3 → prelude s1 s3.
Proof.
  intros (Hu & Hs & a1 & Ha1 & Hk1) (Hu' & Hs' & a2 & Ha2 & Hk2).
  split; [by eapply sameUpdates_trans|]. split; [congruence|].
  exists (a1 ++ a2). split; [by rewrite Ha2, Ha1, app_assoc|]. by apply Forall_app.
Qed.

Lemma prelude_quiet s s' :
  sameUpdates s s' → currentService s' = currentService s → outputLog s' = outputLog s →
  prelude s s'.
Proof. intros H1 H2 H3. split; [done|]. split; [done|]. exists []. by rewrite app_nil_r. Qed.

Lemma prelude_writeOutput m t s : (t, m) ∈ preludeLines → prelude s (writeOutput m t s).
Proof.
  intros H. split; [done|]. split; [done|]. exists [(t, m)]. split; [done|]. by constructor.
Qed.

Lemma prelude_await env s : prelude s (await env s).
Proof.
  unfold await. destruct (stopPressed env (awaits s)); [|by apply prelude_quiet].
  split; [done|]. split; [done|]. exists [("WARNING", "Cancelling operation...")].
  split; [done|]. constructor; [|done]. unfold preludeLines. set_solver.
Qed.

Lemma needsLoad_decide s :
  bool_decide (is_Some (seasonMappingData s)) && bool_decide (is_Some (episodeData s)) = false
  ↔ needsLoad s.
Proof.
  unfold needsLoad. rewrite andb_false_iff, !bool_decide_eq_false. split; [tauto|].
  intros H. destruct (decide (is_Some (seasonMappingData s))); [right|left]; tauto.
Qed.



Section Exits.

Import ApplyOnePaceEdits.

Variable looseEq : string -> JsNum -> bool.
Variable env : Env.
Variable opts : UpdateOptions.t.

Lemma loadSheets_spec s :
  prelude s (loadSheets env s).1 ∧
  match (loadSheets env s).2 with
  | Some m => needsLoad s ∧ getAllData env = inl m
  | None =>
      (¬ needsLoad s ∨ ∃ d, getAllData env = inr d) ∧
      is_Some (seasonMappingData (loadSheets env s).1) ∧
      is_Some (episodeData (loadSheets env s).1)
  end.
Proof.
  unfold loadSheets.
  destruct (bool_decide _ && bool_decide _) eqn:E; cbn [fst snd].
  - split; [apply prelude_refl|].
    apply andb_true_iff in E as [E1 E2].
    apply bool_decide_eq_true in E1, E2. split; [|done]. left. unfold needsLoad. tauto.
  - apply needsLoad_decide in E. destruct (getAllData env) as [m|d]; cbn [fst snd].
    + split; [apply prelude_await|done].
    + split.
      * eapply prelude_trans; [apply prelude_await|].
        eapply prelude_trans; [|apply prelude_writeOutput; unfold preludeLines; set_solver].
        by apply prelude_quiet.
      * split; [right; eauto|]. simpl. split; eauto.
Qed.

Lemma fetchShowMetadata_spec s :
  prelude s (fetchShowMetadata env s).1 ∧
  seasonMappingData (fetchShowMetadata env s).1 = seasonMappingData s ∧
  episodeData (fetchShowMetadata env s).1 = episodeData s ∧
  ∀ m, (fetchShowMetadata env s).2 = inl m ↔ catalogFailure env s m.
Proof.
  assert (Hf : ∀ s0, seasonMappingData (await env s0) = seasonMappingData s0 ∧
                     episodeData (await env s0) = episodeData s0).
  { intros s0. unfold await. by destruct (stopPressed env (awaits s0)). }
  unfold fetchShowMetadata, catalogFailure.
  case_bool_decide as Hp; [|case_bool_decide as Hj]; cbn [fst snd].
  - split; [apply prelude_await|]. split; [apply Hf|]. split; [apply Hf|].
    intros m. split; [tauto|]. intros [[_ ?]|[[? _]|[? _]]]; [done|congruence|done].
  - split; [apply prelude_await|]. split; [apply Hf|]. split; [apply Hf|].
    intros m. split; [tauto|]. intros [[? _]|[[_ ?]|(_ & ? & _)]]; done.
  - split; [apply prelude_refl|]. split; [done|]. split; [done|].
    intros m. split.
    + intros [= <-]. tauto.
    + intros [[? _]|[[? _]|(_ & _ & ->)]]; done.
Qed.

(** The run leaves through exactly one of its three exits: no show was
    selected; one of the two initial fetches failed, after a prelude; or the
    season loop ran over the fetched tree and the summary was written. *)
Lemma applyOnePaceEdits_exits s :
  (selectedShow s = None ∧
   applyOnePaceEdits looseEq env opts s =
     (writeOutput "No show selected. Search for the show first." "ERROR" s, NoShowSelected)) ∨
  (∃ s3 m, prelude s s3 ∧ fetchFailed env s m ∧
     applyOnePaceEdits looseEq env opts s = failed m s3) ∨
  (∃ s4 sm ed seasons, (∀ m, ¬ fetchFailed env s m) ∧
     updateCalls s4 = updateCalls s ∧
     applyOnePaceEdits looseEq env opts s =
       (finish (seasonLoop looseEq env opts sm (buildEpisodeLookup (buildTitleToSeason sm) ed)
                  seasons (setTotalUpdates 0 s4)), Completed)).
Proof.
  unfold applyOnePaceEdits. destruct (selectedShow s) as [show|] eqn:Eshow; [right|by left].
  set (s1 := writeOutput _ _ _).
  assert (H1 : prelude s s1).
  { subst s1.
    eapply prelude_trans; [|apply prelude_writeOutput; unfold preludeLines; set_solver].
    by apply prelude_quiet. }
  assert (Hn1 : needsLoad s1 ↔ needsLoad s) by done.
  assert (Hsel : selectedShow s ≠ None) by congruence.
  destruct (loadSheets_spec s1) as [H2 Hload].
  destruct (loadSheets env s1) as [s2 [m|]]; cbn [fst snd] in *.
  { left. exists s2, m. split; [by eapply prelude_trans|]. split; [|done].
    split; [done|]. left. tauto. }
  destruct Hload as (Hok & Hsm & Hed).
  destruct (fetchShowMetadata_spec s2) as (H3 & Hsm3 & Hed3 & Hfail).
  assert (Hsvc : currentService s2 = currentService s).
  { destruct H1 as (_ & ? & _), H2 as (_ & ? & _). congruence. }
  assert (Hcat : ∀ m, catalogFailure env s2 m ↔ catalogFailure env s m).
  { intros m. unfold catalogFailure. by rewrite Hsvc. }
  destruct (fetchShowMetadata env s2) as [s3 [m|seasons]]; cbn [fst snd] in *.
  { left. exists s3, m. split.
    - eapply prelude_trans; [exact H1|]. by eapply prelude_trans.
    - split; [|done]. split; [done|]. right. split; [tauto|]. apply Hcat, Hfail. done. }
  right. set (s4 := writeOutput _ _ s3).
  destruct Hsm as [sm Hsm], Hed as [ed Hed].
  assert (Esm : seasonMappingData s4 = Some sm) by (subst s4; simpl; congruence).
  assert (Eed : episodeData s4 = Some ed) by (subst s4; simpl; congruence).
  rewrite Esm, Eed. exists s4, sm, ed, seasons. split; [|split; [|done]].
  - intros m [_ [[Hn Hg]|[_ Hc]]].
    + destruct Hok as [?|[d ?]]; [tauto|congruence].
    + apply Hcat, Hfail in Hc. done.
  - destruct H1 as ([? _] & _), H2 as ([? _] & _), H3 as ([? _] & _).
    subst s4. simpl. congruence.
Qed.

End Exits.

(** ** Main results about the run *)

(** C2. In a dry run no update call is made, whatever the seasons and
    episodes are, and a run that reaches its end reports the count 0: in the
    counter, in the status text and in the summary lines that close the log. *)
Theorem dry_run_never_updates (looseEq : string -> JsNum -> bool) (env : Env)
    (opts : UpdateOptions.t) (s : State) :
  UpdateOptions.dryRun opts = true →
  updateCalls (ApplyOnePaceEdits.applyOnePaceEdits looseEq env opts s).1 = updateCalls s ∧
  ((ApplyOnePaceEdits.applyOnePaceEdits looseEq env opts s).2 = Completed →
   totalUpdates (ApplyOnePaceEdits.applyOnePaceEdits looseEq env opts s).1 = 0%nat ∧
   statusMessage (ApplyOnePaceEdits.applyOnePaceEdits looseEq env opts s).1 =
     "Completed - 0 updates applied" ∧
   ∃ earlier,
     outputLog (ApplyOnePaceEdits.applyOnePaceEdits looseEq env opts s).1 =
       earlier ++ summaryLines 0).
Proof.
  intros Hdry.
  destruct (applyOnePaceEdits_exits looseEq env opts s)
    as [[_ ->]|[(s3 & m & Hp & _ & ->)|(s4 & sm & ed & seasons & _ & Hc & ->)]].
  - done.
  - destruct Hp as ([Hu _] & _). done.
  - cbn [fst snd].
    set (s5 := ApplyOnePaceEdits.seasonLoop _ _ _ _ _ _ _).
    destruct (dry_seasonLoop looseEq env opts Hdry sm
                (ApplyOnePaceEdits.buildEpisodeLookup
                   (ApplyOnePaceEdits.buildTitleToSeason sm) ed)
                seasons (setTotalUpdates 0 s4)) as [Hu Ht].
    fold s5 in Hu, Ht. simpl in Hu, Ht.
    destruct (finish_spec s5) as (Hlog & Hst & Hcalls & Htot).
    rewrite Ht in Hlog, Hst, Htot. split; [congruence|].
    intros _. split; [done|]. split; [done|]. eauto.
Qed.

Lemma dry_run_never_updates_witness :
  updateCalls (ApplyOnePaceEdits.applyOnePaceEdits Example.decimalEq Example.calm
                 Example.titlesDry (Example.idle "plex")).1 = [] ∧
  totalUpdates (ApplyOnePaceEdits.applyOnePaceEdits Example.decimalEq Example.calm
                  Example.titlesDry (Example.idle "plex")).1 = 0%nat.
Proof.
  destruct (dry_run_never_updates Example.decimalEq Example.calm Example.titlesDry
              (Example.idle "plex") eq_refl) as [Hcalls Hdone].
  split; [exact Hcalls|]. apply Hdone. vm_compute. reflexivity.
Defined.

(** C4. If the cancellation flag is up when the seasons [pre] are over, however
    many seasons [post] would follow, the run over all of them ends where the
    run over [pre] ends, apart from the one cancellation warning: no episode
    of a later season is looked at, no further update is attempted or
    counted, and the update calls of the earlier seasons are all still
    there. *)
Theorem cancel_between_seasons (looseEq : string -> JsNum -> bool) (env : Env)
    (opts : UpdateOptions.t) (seasonMapping : list Row)
    (episodeLookup : gmap string ApplyOnePaceEdits.LookupEntry)
    (pre post : list Season.t) (s : State) :
  operationCancelled
    (ApplyOnePaceEdits.seasonLoop looseEq env opts seasonMapping episodeLookup pre s) = true →
  let s1 := ApplyOnePaceEdits.seasonLoop looseEq env opts seasonMapping episodeLookup pre s in
  let s2 := ApplyOnePaceEdits.seasonLoop looseEq env opts seasonMapping episodeLookup
              (pre ++ post) s in
  updateCalls s2 = updateCalls s1 ∧
  totalUpdates s2 = totalUpdates s1 ∧
  (outputLog s2 = outputLog s1 ∨ outputLog s2 = outputLog s1 ++ [cancelWarning]) ∧
  ∃ later, updateCalls s1 = updateCalls s ++ later.
Proof.
  intros Hc s1 s2.
  assert (Hgrow : ∃ later, updateCalls s1 = updateCalls s ++ later).
  { destruct (extends_seasonLoop looseEq env opts seasonMapping episodeLookup pre s)
      as (_ & (later & Hl & _) & _). eauto. }
  destruct (seasonLoop_cancelled looseEq env opts seasonMapping episodeLookup pre post s Hc)
    as [H|H]; subst s1 s2; rewrite H; simpl; auto.
Qed.

Lemma cancel_between_seasons_witness :
  let s1 := ApplyOnePaceEdits.seasonLoop Example.decimalEq Example.stopping Example.titles
              Example.eastBlueMap Example.lookup [Example.season1] (Example.loaded "plex") in
  let s2 := ApplyOnePaceEdits.seasonLoop Example.decimalEq Example.stopping Example.titles
              Example.eastBlueMap Example.lookup ([Example.season1] ++ [Example.season2])
              (Example.loaded "plex") in
  updateCalls s2 = updateCalls s1 ∧
  totalUpdates s2 = totalUpdates s1 ∧
  (outputLog s2 = outputLog s1 ∨ outputLog s2 = outputLog s1 ++ [cancelWarning]) ∧
  ∃ later, updateCalls s1 = updateCalls (Example.loaded "plex") ++ later.
Proof.
  apply (cancel_between_seasons Example.decimalEq Example.stopping Example.titles
           Example.eastBlueMap Example.lookup [Example.season1] [Example.season2]
           (Example.loaded "plex")).
  vm_compute. reflexivity.
Defined.








(** ** Tallies of an undisturbed loop *)

Lemma successes_app env base c1 c2 :
  successes env base (c1 ++ c2) =
  (successes env base c1 + successes env (base + length c1) c2)%nat.
Proof.
  revert base. induction c1 as [|[itemId updates] c1 IH]; intros base; simpl.
  - by rewrite Nat.add_0_r.
  - rewrite IH. replace (S base + length c1)%nat with (base + S (length c1))%nat by lia. lia.
Qed.

Lemma countDryRun_snoc log line :
  countDryRun (log ++ [line]) =
  (countDryRun log + if startsWith line.2 dryRunPrefix then 1 else 0)%nat.
Proof.
  unfold countDryRun. rewrite filter_app, length_app. f_equal.
  rewrite filter_cons, filter_nil. destruct (startsWith line.2 dryRunPrefix); by case_decide.
Qed.

Lemma countType_snoc type log line :
  countType type (log ++ [line]) =
  (countType type log + if decide (line.1 = type) then 1 else 0)%nat.
Proof.
  unfold countType. rewrite filter_app, length_app. f_equal.
  rewrite filter_cons, filter_nil. by case_decide.
Qed.

Lemma outputLog_writeOutput m t s : outputLog (writeOutput m t s) = outputLog s ++ [(t, m)].
Proof. reflexivity. Qed.

Section Tallies.

Import ApplyOnePaceEdits.

Variable looseEq : string -> JsNum -> bool.
Variable env : Env.
Variable opts : UpdateOptions.t.
Hypothesis HnoStop : noStop env.

Lemma tallies_refl s : tallies env opts [] 0 s s.
Proof.
  repeat split; simpl; rewrite ?app_nil_r; first [done | lia].
Qed.

Lemma tallies_trans c1 c2 l1 l2 s1 s2 s3 :
  tallies env opts c1 l1 s1 s2 → tallies env opts c2 l2 s2 s3 →
  tallies env opts (c1 ++ c2) (l1 + l2) s1 s3.
Proof.
  intros (Hc & Hs & Hr & Hl & Hd & Hp) (Hc' & Hs' & Hr' & Hl' & Hd' & Hp').
  split; [congruence|]. split; [congruence|]. split; [congruence|].
  split; [lia|]. split.
  - intros Hdry. rewrite Hd', Hd, length_app by done. lia.
  - intros Hlive Hplex.
    destruct (Hp Hlive Hplex) as (Hu1 & Ht1 & He1).
    destruct (Hp' Hlive) as (Hu2 & Ht2 & He2); [congruence|].
    rewrite Hu1, length_app in Ht2, He2.
    rewrite successes_app, length_app.
    split; [by rewrite Hu2, Hu1, app_assoc|]. split; lia.
Qed.

Lemma tallies_await s : tallies env opts [] 0 s (await env s).
Proof.
  unfold await. rewrite HnoStop.
  repeat split; simpl; rewrite ?app_nil_r; first [done | lia].
Qed.

(** A line that is neither an announcement of a dry run nor an error. *)
Lemma tallies_note m t s :
  startsWith m dryRunPrefix = false → t ≠ "ERROR" →
  tallies env opts [] 1 s (writeOutput m t s).
Proof.
  intros Hm Ht. split; [done|]. split; [done|]. split; [done|].
  rewrite outputLog_writeOutput, length_app, countDryRun_snoc, countType_snoc.
  cbn [fst snd length]. rewrite Hm, decide_False by done.
  split; [lia|]. split; [intros _; lia|].
  intros _ _. cbn [updateCalls totalUpdates writeOutput successes].
  rewrite app_nil_r. split; [done|]. split; lia.
Qed.

Lemma tallies_announce itemId updates m s :
  UpdateOptions.dryRun opts = true → startsWith m dryRunPrefix = true →
  tallies env opts [(itemId, updates)] 1 s (writeOutput m "INFO" s).
Proof.
  intros Hdry Hm. split; [done|]. split; [done|]. split; [done|].
  rewrite outputLog_writeOutput, length_app, countDryRun_snoc.
  cbn [fst snd length]. rewrite Hm.
  split; [lia|]. split; [intros _; lia|]. intros Hlive. congruence.
Qed.

(** The shape of the state after the guarded update block, whatever the
    pause. *)
Lemma tallies_one itemId updates type m n calls s s' :
  UpdateOptions.dryRun opts = false →
  operationCancelled s' = operationCancelled s →
  currentService s' = currentService s →
  releaseData s' = releaseData s →
  outputLog s' = outputLog s ++ [(type, m)] →
  updateCalls s' = updateCalls s ++ calls →
  totalUpdates s' = (totalUpdates s + n)%nat →
  (currentService s = "plex" →
   calls = [(itemId, updates)] ∧
   n = successes env (length (updateCalls s)) [(itemId, updates)] ∧
   (n = 0%nat → type = "ERROR") ∧ (n = 1%nat → type ≠ "ERROR")) →
  tallies env opts [(itemId, updates)] 1 s s'.
Proof.
  intros Hlive Hc Hs Hr Hl Hu Ht Hplex.
  split; [done|]. split; [done|]. split; [done|].
  rewrite Hl, length_app, countType_snoc. cbn [fst snd length].
  split; [lia|]. split; [congruence|].
  intros _ Hp. destruct (Hplex Hp) as (-> & -> & H0 & H1).
  split; [done|]. split; [done|].
  cbn [successes length] in *.
  destruct (plexUpdateMetadata env (length (updateCalls s)) itemId updates).
  - rewrite decide_True by auto. lia.
  - rewrite decide_False by auto. lia.
Qed.

Lemma tallies_liveUpdate itemId updates ok failPrefix pause s :
  UpdateOptions.dryRun opts = false →
  tallies env opts [(itemId, updates)] 1 s (liveUpdate env itemId updates ok failPrefix pause s).
Proof.
  intros Hlive. unfold liveUpdate.
  assert (Ha : ∀ x, await env x = tick x) by (intros x; unfold await; by rewrite HnoStop).
  rewrite !Ha. case_bool_decide as Hp.
  - destruct (plexUpdateMetadata env (length (updateCalls s)) itemId updates) as [m|] eqn:Ho.
    + eapply (tallies_one itemId updates "ERROR" _ 0 [(itemId, updates)]);
        try reflexivity; try done;
        try (cbn [totalUpdates writeOutput tick recordCall]; lia).
      intros _. cbn [successes]. rewrite Ho. repeat split; first [done | lia].
    + destruct pause; rewrite ?Ha;
        (eapply (tallies_one itemId updates "SUCCESS" _ 1 [(itemId, updates)]);
         try reflexivity; try done;
         try (cbn [totalUpdates setTotalUpdates writeOutput tick recordCall]; lia);
         intros _; cbn [successes]; rewrite Ho; repeat split; first [done | lia]).
  - destruct pause; rewrite ?Ha;
      (eapply (tallies_one itemId updates "SUCCESS" _ 1 []);
       try reflexivity; try done;
       try (cbn [updateCalls setTotalUpdates writeOutput tick]; by rewrite app_nil_r);
       try (cbn [totalUpdates setTotalUpdates writeOutput tick]; lia)).
Qed.

Lemma tallies_updateSeasonTitle info season s :
  tallies env opts (seasonTitleCall opts info season)
    (length (seasonTitleCall opts info season)) s (updateSeasonTitle env opts info season s).
Proof.
  unfold updateSeasonTitle, seasonTitleCall.
  destruct info as [info|]; [|apply tallies_refl].
  destruct (info !! "title_en"); [|apply tallies_refl].
  destruct (_ && _); [|apply tallies_refl].
  destruct (UpdateOptions.dryRun opts) eqn:Hd.
  - by apply tallies_announce.
  - by apply tallies_liveUpdate.
Qed.

Lemma tallies_updateSeasonDescription info season s :
  tallies env opts (seasonDescriptionCall opts info season)
    (length (seasonDescriptionCall opts info season)) s
    (updateSeasonDescription env opts info season s).
Proof.
  unfold updateSeasonDescription, seasonDescriptionCall.
  destruct info as [info|]; [|apply tallies_refl].
  destruct (info !! "description_en"); [|apply tallies_refl].
  destruct (_ && _); [|apply tallies_refl].
  destruct (UpdateOptions.dryRun opts) eqn:Hd.
  - by apply tallies_announce.
  - by apply tallies_liveUpdate.
Qed.

Lemma tallies_processEpisode lookup season episode s :
  tallies env opts (episodeCall opts lookup (releaseData s) season episode) 1 s
    (processEpisode env opts lookup season episode s).
Proof.
  unfold processEpisode, episodeCall.
  destruct (lookup !! _); [|by apply tallies_note].
  destruct (willUpdate _); [|by apply tallies_note].
  destruct (UpdateOptions.dryRun opts) eqn:Hd.
  - by apply tallies_announce.
  - by apply tallies_liveUpdate.
Qed.

Lemma tallies_episodeLoop lookup season episodes s :
  operationCancelled s = false →
  tallies env opts (concat (episodeCall opts lookup (releaseData s) season <$> episodes))
    (length episodes) s (episodeLoop env opts lookup season episodes s).
Proof.
  revert s. induction episodes as [|e rest IH]; intros s Hc; simpl; [apply tallies_refl|].
  rewrite Hc.
  pose proof (tallies_processEpisode lookup season e s) as Hstep.
  change (S (length rest)) with (1 + length rest)%nat.
  eapply tallies_trans; [exact Hstep|].
  destruct Hstep as (Hc' & _ & Hr & _). rewrite <- Hr. apply IH. congruence.
Qed.

Lemma tallies_processSeason sm lookup season s :
  operationCancelled s = false →
  tallies env opts (seasonCalls looseEq opts sm lookup (releaseData s) season)
    (length (seasonTitleCall opts (findSeasonInfo looseEq sm season) season) +
     length (seasonDescriptionCall opts (findSeasonInfo looseEq sm season) season) +
     length (Season.episodes season)) s
    (processSeason looseEq env opts sm lookup season s).
Proof.
  intros Hc. unfold processSeason, seasonCalls.
  pose proof (tallies_updateSeasonTitle (findSeasonInfo looseEq sm season) season s) as H1.
  rewrite <- Nat.add_assoc.
  eapply tallies_trans; [exact H1|].
  set (s1 := updateSeasonTitle _ _ _ _ _) in *.
  pose proof (tallies_updateSeasonDescription (findSeasonInfo looseEq sm season) season s1)
    as H2.
  eapply tallies_trans; [exact H2|].
  set (s2 := updateSeasonDescription _ _ _ _ _) in *.
  destruct H1 as (Hc1 & _ & Hr1 & _), H2 as (Hc2 & _ & Hr2 & _).
  rewrite <- (app_nil_r (concat _)), <- (Nat.add_0_r (length (Season.episodes season))).
  eapply tallies_trans; [|apply tallies_await].
  rewrite <- Hr1, <- Hr2. apply tallies_episodeLoop. congruence.
Qed.

Lemma tallies_seasonLoop sm lookup seasons s :
  operationCancelled s = false →
  tallies env opts (plannedCalls looseEq opts sm lookup (releaseData s) seasons)
    (plannedLines looseEq opts sm seasons) s
    (seasonLoop looseEq env opts sm lookup seasons s).
Proof.
  revert s. induction seasons as [|x rest IH]; intros s Hc; simpl; [apply tallies_refl|].
  rewrite Hc. unfold plannedCalls. simpl.
  pose proof (tallies_processSeason sm lookup x s Hc) as Hstep.
  eapply tallies_trans; [exact Hstep|].
  destruct Hstep as (Hc' & _ & Hr & _). rewrite <- Hr. apply IH. congruence.
Qed.

End Tallies.

(** X1. In an undisturbed loop, dry or live and with any service, every
    season-level update and every episode leaves exactly one line in the
    log. *)
Theorem one_log_line_per_item (looseEq : string -> JsNum -> bool) (env : Env)
    (opts : UpdateOptions.t) (seasonMapping : list Row)
    (episodeLookup : gmap string ApplyOnePaceEdits.LookupEntry)
    (seasons : list Season.t) (s : State) :
  noStop env → operationCancelled s = false →
  length (outputLog (ApplyOnePaceEdits.seasonLoop looseEq env opts seasonMapping
                       episodeLookup seasons s)) =
    (length (outputLog s) + plannedLines looseEq opts seasonMapping seasons)%nat.
Proof.
  intros Hstop Hc.
  by destruct (tallies_seasonLoop looseEq env opts Hstop seasonMapping episodeLookup seasons s Hc)
    as (_ & _ & _ & H & _).
Qed.

Lemma one_log_line_per_item_witness :
  length (outputLog (ApplyOnePaceEdits.seasonLoop Example.decimalEq Example.refusing
                       Example.titles Example.eastBlueMap Example.lookup
                       [Example.season1; Example.season2] (Example.loaded "plex"))) = 3%nat.
Proof.
  apply (one_log_line_per_item Example.decimalEq Example.refusing Example.titles
           Example.eastBlueMap Example.lookup [Example.season1; Example.season2]
           (Example.loaded "plex")).
  - intros n. reflexivity.
  - reflexivity.
Defined.

(** X2. An undisturbed dry run announces exactly the updates that the
    undisturbed live plex run makes from the same state and with the same
    field options: it writes one dry-run line per call of the live run, and
    makes no call itself. *)
Theorem dry_run_announces_live_calls (looseEq : string -> JsNum -> bool) (env : Env)
    (opts : UpdateOptions.t) (seasonMapping : list Row)
    (episodeLookup : gmap string ApplyOnePaceEdits.LookupEntry)
    (seasons : list Season.t) (s : State) :
  noStop env → operationCancelled s = false → currentService s = "plex" →
  ∃ calls,
    updateCalls (ApplyOnePaceEdits.seasonLoop looseEq env (withDryRun false opts)
                   seasonMapping episodeLookup seasons s) = updateCalls s ++ calls ∧
    updateCalls (ApplyOnePaceEdits.seasonLoop looseEq env (withDryRun true opts)
                   seasonMapping episodeLookup seasons s) = updateCalls s ∧
    countDryRun (outputLog (ApplyOnePaceEdits.seasonLoop looseEq env (withDryRun true opts)
                              seasonMapping episodeLookup seasons s)) =
      (countDryRun (outputLog s) + length calls)%nat.
Proof.
  intros Hstop Hc Hp.
  exists (plannedCalls looseEq (withDryRun false opts) seasonMapping episodeLookup
            (releaseData s) seasons).
  destruct (tallies_seasonLoop looseEq env (withDryRun false opts) Hstop seasonMapping
              episodeLookup seasons s Hc) as (_ & _ & _ & _ & _ & Hlive).
  destruct (tallies_seasonLoop looseEq env (withDryRun true opts) Hstop seasonMapping
              episodeLookup seasons s Hc) as (_ & _ & _ & _ & Hdry & _).
  destruct (Hlive eq_refl Hp) as (Hu & _).
  split; [exact Hu|]. split.
  - apply (dry_seasonLoop looseEq env (withDryRun true opts) eq_refl).
  - exact (Hdry eq_refl).
Qed.

Lemma dry_run_announces_live_calls_witness :
  ∃ calls,
    updateCalls (ApplyOnePaceEdits.seasonLoop Example.decimalEq Example.calm
                   (withDryRun false Example.titles) Example.eastBlueMap Example.lookup
                   [Example.season1; Example.season2] (Example.loaded "plex")) =
      updateCalls (Example.loaded "plex") ++ calls ∧
    updateCalls (ApplyOnePaceEdits.seasonLoop Example.decimalEq Example.calm
                   (withDryRun true Example.titles) Example.eastBlueMap Example.lookup
                   [Example.season1; Example.season2] (Example.loaded "plex")) =
      updateCalls (Example.loaded "plex") ∧
    countDryRun (outputLog (ApplyOnePaceEdits.seasonLoop Example.decimalEq Example.calm
                              (withDryRun true Example.titles) Example.eastBlueMap
                              Example.lookup [Example.season1; Example.season2]
                              (Example.loaded "plex"))) =
      (countDryRun (outputLog (Example.loaded "plex")) + length calls)%nat.
Proof.
  apply (dry_run_announces_live_calls Example.decimalEq Example.calm Example.titles
           Example.eastBlueMap Example.lookup [Example.season1; Example.season2]
           (Example.loaded "plex")).
  - intros n. reflexivity.
  - reflexivity.
  - reflexivity.
Defined.

(** X3. In an undisturbed live plex loop the counter grows by the number of
    update calls that the server accepts, and the log gains one error line
    for each call that it refuses. *)
Theorem counter_counts_accepted_calls (looseEq : string -> JsNum -> bool) (env : Env)
    (opts : UpdateOptions.t) (seasonMapping : list Row)
    (episodeLookup : gmap string ApplyOnePaceEdits.LookupEntry)
    (seasons : list Season.t) (s : State) :
  UpdateOptions.dryRun opts = false → noStop env →
  operationCancelled s = false → currentService s = "plex" →
  let calls := plannedCalls looseEq opts seasonMapping episodeLookup (releaseData s) seasons in
  let s' := ApplyOnePaceEdits.seasonLoop looseEq env opts seasonMapping episodeLookup
              seasons s in
  totalUpdates s' = (totalUpdates s + successes env (length (updateCalls s)) calls)%nat ∧
  (countType "ERROR" (outputLog s') + successes env (length (updateCalls s)) calls =
   countType "ERROR" (outputLog s) + length calls)%nat.
Proof.
  intros Hlive Hstop Hc Hp calls s'.
  destruct (tallies_seasonLoop looseEq env opts Hstop seasonMapping episodeLookup seasons s Hc)
    as (_ & _ & _ & _ & _ & H).
  by destruct (H Hlive Hp) as (_ & ? & ?).
Qed.

Lemma counter_counts_accepted_calls_witness :
  totalUpdates (ApplyOnePaceEdits.seasonLoop Example.decimalEq Example.refusing
                  Example.titles Example.eastBlueMap Example.lookup
                  [Example.season1; Example.season2] (Example.loaded "plex")) = 1%nat ∧
  countType "ERROR"
    (outputLog (ApplyOnePaceEdits.seasonLoop Example.decimalEq Example.refusing
                  Example.titles Example.eastBlueMap Example.lookup
                  [Example.season1; Example.season2] (Example.loaded "plex"))) = 1%nat.
Proof.
  destruct (counter_counts_accepted_calls Example.decimalEq Example.refusing Example.titles
              Example.eastBlueMap Example.lookup [Example.season1; Example.season2]
              (Example.loaded "plex") eq_refl (fun n => eq_refl) eq_refl eq_refl) as [Ht He].
  split; [exact Ht|].
  vm_compute in He. vm_compute. lia.
Defined.

(** ** The diff against the catalog *)

Section Diff.

Import ApplyOnePaceEdits.

Lemma truthy_app_l a b : truthy a = true → truthy (a +:+ b) = true.
Proof. by destruct a. Qed.

Lemma episodeDescription_truthy d info : truthy d = true → truthy (episodeDescription d info) = true.
Proof.
  intros Hd. unfold episodeDescription. destruct info as [info|]; [|done].
  destruct (info !! "Chapters") as [c|], (info !! "Episodes") as [e|];
    try destruct (truthy c); try destruct (truthy e);
    repeat apply truthy_app_l; done.
Qed.

(** Every field that the episode diff proposes is a non-empty text, provided
    the lookup title is one. *)
Lemma episodeUpdates_truthy opts rd episode data :
  truthy (title data) = true →
  let u := episodeUpdates opts rd episode data in
  (∀ v, Updates.title u = Some v → truthy v = true) ∧
  (∀ v, Updates.summary u = Some v → truthy v = true) ∧
  (∀ v, Updates.originallyAvailableAt u = Some v → truthy v = true).
Proof.
  intros Ht u. subst u. unfold episodeUpdates. cbn [Updates.title Updates.summary
    Updates.originallyAvailableAt]. split; [|split]; intros v.
  - destruct (_ && _); [|done]. by intros [= <-].
  - destruct (description data) as [d|]; [|done].
    destruct (UpdateOptions.description opts); [|done]. cbn [andb].
    destruct (truthy d) eqn:Hd; [|done].
    case_bool_decide; [done|]. intros [= <-]. by apply episodeDescription_truthy.
  - destruct (UpdateOptions.date opts); [|done].
    destruct (findRelease rd (Episode.number episode)) as [info|]; [|done].
    destruct (info !! "Release Date") as [d|]; [|done].
    destruct (truthy d) eqn:Hd; [|done]. cbn [andb].
    destruct (_ && _); [|done]. by intros [= <-].
Qed.

Lemma updateParams_keys u :
  (∀ v, Updates.title u = Some v → truthy v = true) →
  (∀ v, Updates.summary u = Some v → truthy v = true) →
  (∀ v, Updates.originallyAvailableAt u = Some v → truthy v = true) →
  (PlexAPI.updateParams u).*1 = Updates.keys u.
Proof.
  destruct u as [[t|] [su|] [d|]]; cbn [Updates.title Updates.summary
    Updates.originallyAvailableAt]; intros H1 H2 H3;
    unfold PlexAPI.updateParams, Updates.keys;
    cbn [Updates.title Updates.summary Updates.originallyAvailableAt];
    rewrite ?(H1 _ eq_refl), ?(H2 _ eq_refl), ?(H3 _ eq_refl); reflexivity.
Qed.

Lemma addEpisodeRow_titles tts (lookup : gmap string LookupEntry) row :
  map_Forall (fun _ e => truthy (title e) = true) lookup →
  map_Forall (fun _ e => truthy (title e) = true) (addEpisodeRow tts lookup row).
Proof.
  intros H. unfold addEpisodeRow.
  destruct (trim <$> row !! "arc_title") as [arc|]; [|done].
  destruct (row !! "arc_part") as [epPart|]; [|done].
  destruct (row !! "title_en") as [t|]; [|done].
  destruct (truthy arc); [|done]. destruct (truthy epPart); [|done].
  destruct (truthy t) eqn:Ht; [|done]. cbn [andb].
  destruct (seasonNum tts arc); [|done].
  by apply map_Forall_insert_2.
Qed.

Lemma buildEpisodeLookup_titles tts rows :
  map_Forall (fun _ e => truthy (title e) = true) (buildEpisodeLookup tts rows).
Proof.
  unfold buildEpisodeLookup.
  assert (H : ∀ (lookup : gmap string LookupEntry),
            map_Forall (fun _ e => truthy (title e) = true) lookup →
            map_Forall (fun _ e => truthy (title e) = true)
              (foldl (addEpisodeRow tts) lookup rows)).
  { induction rows as [|row rows IH]; intros lookup Hl; simpl; [done|].
    by apply IH, addEpisodeRow_titles. }
  apply H, map_Forall_empty.
Qed.

Lemma param_updateParams u :
  (∀ v, Updates.title u = Some v → truthy v = true) →
  (∀ v, Updates.summary u = Some v → truthy v = true) →
  (∀ v, Updates.originallyAvailableAt u = Some v → truthy v = true) →
  param "title" (PlexAPI.updateParams u) = Updates.title u ∧
  param "summary" (PlexAPI.updateParams u) = Updates.summary u ∧
  param "originallyAvailableAt" (PlexAPI.updateParams u) = Updates.originallyAvailableAt u.
Proof.
  destruct u as [[t|] [su|] [d|]]; cbn [Updates.title Updates.summary
    Updates.originallyAvailableAt]; intros H1 H2 H3;
    unfold PlexAPI.updateParams;
    cbn [Updates.title Updates.summary Updates.originallyAvailableAt];
    rewrite ?(H1 _ eq_refl), ?(H2 _ eq_refl), ?(H3 _ eq_refl); done.
Qed.

End Diff.

(** X4. Every update that the loop asks for, with a lookup built from the
    sheets, carries non-empty fields only, so that the query parameters of
    the plex request are exactly the fields that the log line of the update
    names. *)
Theorem logged_fields_are_sent (looseEq : string -> JsNum -> bool) (opts : UpdateOptions.t)
    (seasonMapping episodeRows : list Row) (releaseData : option (list Row))
    (seasons : list Season.t) :
  Forall (fun call => (PlexAPI.updateParams call.2).*1 = Updates.keys call.2)
    (plannedCalls looseEq opts seasonMapping
       (ApplyOnePaceEdits.buildEpisodeLookup
          (ApplyOnePaceEdits.buildTitleToSeason seasonMapping) episodeRows)
       releaseData seasons).
Proof.
  unfold plannedCalls. apply Forall_concat, Forall_fmap, Forall_forall.
  intros season _. unfold seasonCalls. repeat apply Forall_app_2.
  - unfold seasonTitleCall.
    destruct (ApplyOnePaceEdits.findSeasonInfo _ _ _) as [info|]; [|constructor].
    destruct (info !! "title_en") as [t|]; [|constructor].
    destruct (UpdateOptions.seasonTitle opts); [|constructor]. cbn [andb].
    destruct (truthy t) eqn:Ht; [|constructor]. cbn [andb].
    destruct (negb _); constructor; [|constructor].
    cbn. by rewrite Ht.
  - unfold seasonDescriptionCall.
    destruct (ApplyOnePaceEdits.findSeasonInfo _ _ _) as [info|]; [|constructor].
    destruct (info !! "description_en") as [d|]; [|constructor].
    destruct (UpdateOptions.description opts); [|constructor]. cbn [andb].
    destruct (truthy d) eqn:Hd; constructor; [|constructor].
    cbn. by rewrite Hd.
  - apply Forall_concat, Forall_fmap, Forall_forall. intros episode _.
    unfold compose, episodeCall.
    match goal with
    | |- context [match ?x with Some _ => _ | None => _ end] =>
        destruct x as [data|] eqn:El; [|constructor]
    end.
    cbv zeta. destruct (ApplyOnePaceEdits.willUpdate _); constructor; [|constructor].
    cbn [snd].
    destruct (episodeUpdates_truthy opts releaseData episode data) as (H1 & H2 & H3).
    { eapply (buildEpisodeLookup_titles _ _ _ _ El). }
    by apply updateParams_keys.
Qed.

(** X5. The diff settles: once the catalog holds the fields that the request
    for the diff of an episode sent, the diff of that episode is empty and
    nothing more is asked for, provided the lookup title is not empty (as it
    is for every entry of a lookup built from the sheets); the same holds for
    the title of a season.  The description of a season is different: it is
    asked for again whenever the sheet has one, whatever the catalog holds. *)
Theorem diff_settles (opts : UpdateOptions.t) (releaseData : option (list Row))
    (episode : Episode.t) (data : ApplyOnePaceEdits.LookupEntry)
    (info : option Row) (season : Season.t) :
  truthy (ApplyOnePaceEdits.title data) = true →
  ApplyOnePaceEdits.episodeUpdates opts releaseData
    (episodeAfter (ApplyOnePaceEdits.episodeUpdates opts releaseData episode data) episode)
    data = Updates.empty ∧
  (∀ call, seasonTitleCall opts info season = [call] →
     seasonTitleCall opts info (seasonAfter call.2 season) = []) ∧
  (∀ call, seasonDescriptionCall opts info season = [call] →
     seasonDescriptionCall opts info (seasonAfter call.2 season) = [call]).
Proof.
  intros Ht. split; [|split].
  - destruct (episodeUpdates_truthy opts releaseData episode data Ht) as (H1 & H2 & H3).
    destruct (param_updateParams _ H1 H2 H3) as (P1 & P2 & P3).
    unfold episodeAfter. cbv zeta. rewrite P1, P2, P3. clear H1 H2 H3 P1 P2 P3.
    unfold ApplyOnePaceEdits.episodeUpdates, Updates.empty.
    cbn [Episode.title Episode.summary Episode.originallyAvailableAt Episode.number
         Updates.title Updates.summary Updates.originallyAvailableAt].
    f_equal.
    + destruct (UpdateOptions.title opts); [|done]. cbn [andb].
      destruct (decide (Episode.title episode = Some (ApplyOnePaceEdits.title data)))
        as [H1|H1].
      * rewrite (bool_decide_eq_true_2 _ H1). cbn [negb].
        by rewrite (bool_decide_eq_true_2 _ H1).
      * rewrite (bool_decide_eq_false_2 _ H1). cbn [negb].
        by rewrite bool_decide_eq_true_2.
    + destruct (ApplyOnePaceEdits.description data) as [d|]; [|done].
      destruct (UpdateOptions.description opts && truthy d); [|done].
      set (text := ApplyOnePaceEdits.episodeDescription d _).
      destruct (decide (Episode.summary episode = Some text)) as [H1|H1].
      * rewrite (bool_decide_eq_true_2 _ H1).
        by rewrite (bool_decide_eq_true_2 _ H1).
      * rewrite (bool_decide_eq_false_2 _ H1).
        by rewrite bool_decide_eq_true_2.
    + destruct (UpdateOptions.date opts); [|done].
      destruct (ApplyOnePaceEdits.findRelease _ _) as [r|]; [|done].
      destruct (r !! "Release Date") as [d|]; [|done].
      destruct (truthy d && negb (includes d "To Be Released")); [|done]. cbn [andb].
      destruct (decide (Episode.originallyAvailableAt episode = Some d)) as [H1|H1].
      * rewrite (bool_decide_eq_true_2 _ H1). cbn [negb].
        by rewrite (bool_decide_eq_true_2 _ H1).
      * rewrite (bool_decide_eq_false_2 _ H1). cbn [negb].
        by rewrite bool_decide_eq_true_2.
  - intros call. unfold seasonTitleCall.
    destruct info as [i|]; [|done]. destruct (i !! "title_en") as [t|]; [|done].
    destruct (UpdateOptions.seasonTitle opts); [|done]. cbn [andb].
    destruct (truthy t) eqn:Htt; [|done]. cbn [andb].
    destruct (negb _); [|done]. intros [= <-].
    unfold seasonAfter, PlexAPI.updateParams.
    cbn [Season.title snd Updates.title Updates.summary Updates.originallyAvailableAt].
    rewrite Htt. cbn [app param fst]. rewrite (bool_decide_eq_true_2 _ eq_refl).
    cbn [Season.title]. by rewrite bool_decide_eq_true_2.
  - intros call. unfold seasonDescriptionCall, seasonAfter.
    destruct info as [i|]; [|done]. destruct (i !! "description_en") as [d|]; [|done].
    destruct (_ && _); [|done]. by intros [= <-].
Qed.

Lemma diff_settles_witness :
  ApplyOnePaceEdits.episodeUpdates Example.titles None
    (episodeAfter (ApplyOnePaceEdits.episodeUpdates Example.titles None Example.episode3
                     (ApplyOnePaceEdits.mkEntry "Romance Dawn" None))
       Example.episode3)
    (ApplyOnePaceEdits.mkEntry "Romance Dawn" None) = Updates.empty.
Proof.
  apply (diff_settles Example.titles None Example.episode3
           (ApplyOnePaceEdits.mkEntry "Romance Dawn" None) None Example.season1).
  reflexivity.
Defined.


(** ** The sheets are fetched once *)

Section Sheets.

Import ApplyOnePaceEdits.

Variable looseEq : string -> JsNum -> bool.
Variable env : Env.
Variable opts : UpdateOptions.t.

Lemma sheetsOf_await s : sheetsOf (await env s) = sheetsOf s.
Proof. unfold await. by destruct (stopPressed env (awaits s)). Qed.

Lemma sheetsOf_liveUpdate itemId updates ok failPrefix pause s :
  sheetsOf (liveUpdate env itemId updates ok failPrefix pause s) = sheetsOf s.
Proof.
  unfold liveUpdate. case_bool_decide.
  - destruct (plexUpdateMetadata _ _ _ _); [|destruct pause];
      cbn [sheetsOf]; rewrite ?sheetsOf_await;
      change (sheetsOf (await env (recordCall itemId updates s)) = sheetsOf s);
      by rewrite sheetsOf_await.
  - destruct pause; rewrite ?sheetsOf_await; done.
Qed.

Lemma sheetsOf_updateSeasonTitle info season s :
  sheetsOf (updateSeasonTitle env opts info season s) = sheetsOf s.
Proof.
  unfold updateSeasonTitle.
  destruct info as [info|]; [|done]. destruct (info !! "title_en"); [|done].
  destruct (_ && _); [|done].
  destruct (UpdateOptions.dryRun opts); [done|apply sheetsOf_liveUpdate].
Qed.

Lemma sheetsOf_updateSeasonDescription info season s :
  sheetsOf (updateSeasonDescription env opts info season s) = sheetsOf s.
Proof.
  unfold updateSeasonDescription.
  destruct info as [info|]; [|done]. destruct (info !! "description_en"); [|done].
  destruct (_ && _); [|done].
  destruct (UpdateOptions.dryRun opts); [done|apply sheetsOf_liveUpdate].
Qed.

Lemma sheetsOf_processEpisode lookup season episode s :
  sheetsOf (processEpisode env opts lookup season episode s) = sheetsOf s.
Proof.
  unfold processEpisode. destruct (lookup !! _); [|done].
  destruct (willUpdate _); [|done].
  destruct (UpdateOptions.dryRun opts); [done|apply sheetsOf_liveUpdate].
Qed.

Lemma sheetsOf_episodeLoop lookup season episodes s :
  sheetsOf (episodeLoop env opts lookup season episodes s) = sheetsOf s.
Proof.
  revert s. induction episodes as [|e rest IH]; intros s; simpl; [done|].
  destruct (operationCancelled s); [done|]. by rewrite IH, sheetsOf_processEpisode.
Qed.

Lemma sheetsOf_seasonLoop sm lookup seasons s :
  sheetsOf (seasonLoop looseEq env opts sm lookup seasons s) = sheetsOf s.
Proof.
  revert s. induction seasons as [|x rest IH]; intros s; simpl; [done|].
  destruct (operationCancelled s); [done|]. rewrite IH. unfold processSeason.
  by rewrite sheetsOf_await, sheetsOf_episodeLoop, sheetsOf_updateSeasonDescription,
    sheetsOf_updateSeasonTitle.
Qed.

Lemma sheetsOf_fetchShowMetadata s : sheetsOf (fetchShowMetadata env s).1 = sheetsOf s.
Proof.
  unfold fetchShowMetadata. repeat case_bool_decide; cbn [fst]; by rewrite ?sheetsOf_await.
Qed.

End Sheets.

(** X6. After a run that reached its end the sheets are in the state: those
    that were there before it, or else those that the run fetched.  The next
    run finds them and does not fetch again, whatever the sheets service
    would answer then. *)
Theorem sheets_fetched_once (looseEq : string -> JsNum -> bool) (env env' : Env)
    (opts : UpdateOptions.t) (s : State) :
  (ApplyOnePaceEdits.applyOnePaceEdits looseEq env opts s).2 = Completed →
  ApplyOnePaceEdits.loadSheets env'
    (ApplyOnePaceEdits.applyOnePaceEdits looseEq env opts s).1 =
    ((ApplyOnePaceEdits.applyOnePaceEdits looseEq env opts s).1, None) ∧
  (sheetsOf (ApplyOnePaceEdits.applyOnePaceEdits looseEq env opts s).1 = sheetsOf s ∨
   needsLoad s ∧
   ∃ d, getAllData env = inr d ∧
        sheetsOf (ApplyOnePaceEdits.applyOnePaceEdits looseEq env opts s).1 =
          (Some (SheetsData.seasonMapping d), Some (SheetsData.episodeData d),
           Some (SheetsData.releaseData d))).
Proof.
  unfold ApplyOnePaceEdits.applyOnePaceEdits.
  destruct (selectedShow s); [|done].
  set (s1 := writeOutput _ _ _).
  assert (H1 : sheetsOf s1 = sheetsOf s) by done.
  assert (H2 : sheetsOf (ApplyOnePaceEdits.loadSheets env s1).1 = sheetsOf s ∧
               bool_decide (is_Some (seasonMappingData s)) &&
               bool_decide (is_Some (episodeData s)) = true ∨
               needsLoad s ∧
               ((ApplyOnePaceEdits.loadSheets env s1).2 ≠ None ∨
                ∃ d, getAllData env = inr d ∧
                  sheetsOf (ApplyOnePaceEdits.loadSheets env s1).1 =
                    (Some (SheetsData.seasonMapping d), Some (SheetsData.episodeData d),
                     Some (SheetsData.releaseData d)))).
  { unfold ApplyOnePaceEdits.loadSheets.
    change (seasonMappingData s1) with (seasonMappingData s).
    change (episodeData s1) with (episodeData s).
    destruct (bool_decide _ && bool_decide _) eqn:E; cbn [fst snd]; [by left|].
    right. split; [by apply needsLoad_decide|].
    destruct (getAllData env) as [m|d]; cbn [fst snd]; [by left|].
    right. exists d. done. }
  destruct (ApplyOnePaceEdits.loadSheets env s1) as [s2 [m|]]; cbn [fst snd] in *; [done|].
  pose proof (sheetsOf_fetchShowMetadata env s2) as H3.
  destruct (ApplyOnePaceEdits.fetchShowMetadata env s2) as [s3 [m|seasons]];
    cbn [fst snd] in *; [done|].
  set (s4 := writeOutput _ _ s3).
  assert (H4 : sheetsOf s4 = sheetsOf s2) by (rewrite <- H3; done).
  destruct (seasonMappingData s4) as [sm|] eqn:Esm; [|done].
  destruct (episodeData s4) as [ed|] eqn:Eed; [|done].
  intros _. cbn [fst].
  set (s5 := ApplyOnePaceEdits.seasonLoop _ _ _ _ _ _ _).
  assert (H5 : sheetsOf (ApplyOnePaceEdits.finish s5) = sheetsOf s2).
  { transitivity (sheetsOf s5); [done|]. subst s5. rewrite sheetsOf_seasonLoop.
    rewrite <- H4. done. }
  split.
  - unfold ApplyOnePaceEdits.loadSheets.
    assert (Hsm : seasonMappingData (ApplyOnePaceEdits.finish s5) = Some sm).
    { transitivity (sheetsOf (ApplyOnePaceEdits.finish s5)).1.1; [done|].
      rewrite H5, <- H4. done. }
    assert (Hed : episodeData (ApplyOnePaceEdits.finish s5) = Some ed).
    { transitivity (sheetsOf (ApplyOnePaceEdits.finish s5)).1.2; [done|].
      rewrite H5, <- H4. done. }
    rewrite Hsm, Hed. rewrite !bool_decide_eq_true_2 by eauto. done.
  - rewrite H5. destruct H2 as [[H2 _]|[Hn [H2|(d & Hd & H2)]]]; [by left|done|].
    right. split; [done|]. by exists d.
Qed.

Lemma sheets_fetched_once_witness :
  ApplyOnePaceEdits.loadSheets Example.offline
    (ApplyOnePaceEdits.applyOnePaceEdits Example.decimalEq Example.calm Example.titles
       (Example.idle "plex")).1 =
    ((ApplyOnePaceEdits.applyOnePaceEdits Example.decimalEq Example.calm Example.titles
        (Example.idle "plex")).1, None).
Proof.
  apply (sheets_fetched_once Example.decimalEq Example.calm Example.offline Example.titles
           (Example.idle "plex")).
  vm_compute. reflexivity.
Defined.

(** ** The lookups hold the last row of each key *)

Section LastWrite.

Context {A V : Type}.
Variable write : A → option (string * V).

Lemma lastWrite_snoc rows x k v :
  lastWrite write (rows ++ [x]) k v ↔
  write x = Some (k, v) ∨ ((∀ v', write x ≠ Some (k, v')) ∧ lastWrite write rows k v).
Proof.
  split.
  - intros (before & row & after & Heq & Hw & Hlater).
    destruct (decide (after = [])) as [->|Hne].
    + apply app_inj_tail in Heq as [-> ->]. by left.
    + destruct (exists_last Hne) as (after' & y & ->).
      rewrite app_comm_cons, app_assoc in Heq. apply app_inj_tail in Heq as [-> ->].
      apply Forall_app in Hlater as [Hl Hy]. inversion Hy; subst.
      right. split; [done|]. by exists before, row, after'.
  - intros [Hw|[Hx (before & row & after & -> & Hw & Hlater)]].
    + exists rows, x, []. by rewrite Forall_nil.
    + exists before, row, (after ++ [x]). split; [by rewrite <- app_assoc|].
      split; [done|]. apply Forall_app. split; [done|]. by constructor.
Qed.

Lemma foldl_writeStep_lookup rows k v :
  foldl (writeStep write) ∅ rows !! k = Some v ↔ lastWrite write rows k v.
Proof.
  induction rows as [|x rows IH] using rev_ind.
  - simpl. rewrite lookup_empty. split; [done|].
    intros ([|??] & row & after & Heq & _); done.
  - rewrite foldl_app, lastWrite_snoc. simpl. unfold writeStep at 1.
    destruct (write x) as [[k' v']|] eqn:Hx.
    + destruct (decide (k' = k)) as [->|Hne].
      * rewrite lookup_insert_eq. split.
        -- intros [= ->]. by left.
        -- intros [[= ->]|[Hno _]]; [done|]. by destruct (Hno v').
      * rewrite lookup_insert_ne by done. rewrite IH. split.
        -- intros H. right. split; [|done]. intros v'' [= ? ?]. done.
        -- intros [[= ? ?]|[_ H]]; done.
    + rewrite IH. split.
      * intros H. right. by split.
      * intros [?|[_ H]]; done.
Qed.

End LastWrite.


Lemma addEpisodeRow_writeStep tts lookup row :
  ApplyOnePaceEdits.addEpisodeRow tts lookup row = writeStep (episodeEntry tts) lookup row.
Proof.
  unfold ApplyOnePaceEdits.addEpisodeRow, writeStep, episodeEntry.
  destruct (trim <$> row !! "arc_title"), (row !! "arc_part"), (row !! "title_en"); try done.
  destruct (_ && _ && _); [|done]. by destruct (ApplyOnePaceEdits.seasonNum _ _).
Qed.

Lemma foldl_ext_step {A B} (f g : B → A → B) (l : list A) (b : B) :
  (∀ b a, f b a = g b a) → foldl f b l = foldl g b l.
Proof. intros H. revert b. induction l as [|a l IH]; intros b; simpl; [done|]. by rewrite H, IH. Qed.



(** X8. The episode lookup holds, under every key, the entry of the last
    episode row that is stored under it; so the catalog's episode [e] of
    season [s] finds the title of the last row whose resolved season and part
    cell compose the key of [s] and [e], and finds nothing when there is no
    such row. *)
Theorem episodeLookup_last_row (titleToSeason : gmap string JsNum) (episodeRows : list Row)
    (k : string) (entry : ApplyOnePaceEdits.LookupEntry) :
  ApplyOnePaceEdits.buildEpisodeLookup titleToSeason episodeRows !! k = Some entry ↔
  lastWrite (episodeEntry titleToSeason) episodeRows k entry.
Proof.
  unfold ApplyOnePaceEdits.buildEpisodeLookup.
  rewrite (foldl_ext_step _ (writeStep (episodeEntry titleToSeason)))
    by apply addEpisodeRow_writeStep.
  apply foldl_writeStep_lookup.
Qed.

(** ** [Utils.sanitizeFilename] *)

Lemma trimEnd_snoc q c : isWhitespace c = true → trimEnd (q +:+ String c EmptyString) = trimEnd q.
Proof.
  intros Hc. induction q as [|a q IH].
  - simpl. by rewrite Hc.
  - change (String a q +:+ String c EmptyString) with (String a (q +:+ String c EmptyString)).
    simpl. by rewrite IH.
Qed.

Lemma trimEnd_idem s : trimEnd (trimEnd s) = trimEnd s.
Proof.
  induction s as [|a s IH]; simpl; [done|].
  destruct (trimEnd s) as [|b t] eqn:E.
  - destruct (isWhitespace a) eqn:Ha; simpl; [done|]. by rewrite Ha.
  - simpl in *. by rewrite IH.
Qed.

Lemma trimStart_trimEnd_trimStart s : trimStart (trimEnd (trimStart s)) = trimEnd (trimStart s).
Proof.
  induction s as [|a s IH]; simpl; [done|].
  destruct (isWhitespace a) eqn:Ha; [done|].
  cbn [trimEnd]. destruct (trimEnd s) as [|b t]; rewrite ?Ha; cbn [trimStart]; by rewrite Ha.
Qed.

Lemma trim_idem s : trim (trim s) = trim s.
Proof. unfold trim. by rewrite trimStart_trimEnd_trimStart, trimEnd_idem. Qed.

Lemma hasChar_dropChars_in p c s : p c = true → hasChar c (dropChars p s) = false.
Proof.
  intros Hp. induction s as [|a s IH]; simpl; [done|].
  destruct (p a) eqn:Ha; [done|]. simpl. rewrite IH, orb_false_r.
  apply bool_decide_eq_false. congruence.
Qed.

Lemma dropChars_id p s : (∀ c, p c = true → hasChar c s = false) → dropChars p s = s.
Proof.
  induction s as [|a s IH]; simpl; [done|]. intros H.
  destruct (p a) eqn:Ha.
  - specialize (H a Ha). by rewrite bool_decide_eq_true_2 in H.
  - f_equal. apply IH. intros c Hc. specialize (H c Hc).
    by apply orb_false_iff in H as [_ ?].
Qed.

(** X9. The sanitized name holds none of the nine removed characters and has
    no white space at either end; sanitizing it again changes nothing, and a
    name that is already so is returned as it is. *)
Theorem sanitizeFilename_clean (filename : string) :
  (∀ c, illegalChar c = true → hasChar c (sanitizeFilename filename) = false) ∧
  trim (sanitizeFilename filename) = sanitizeFilename filename ∧
  sanitizeFilename (sanitizeFilename filename) = sanitizeFilename filename ∧
  ((∀ c, illegalChar c = true → hasChar c filename = false) → trim filename = filename →
   sanitizeFilename filename = filename).
Proof.
  assert (H1 : ∀ c, illegalChar c = true → hasChar c (sanitizeFilename filename) = false).
  { intros c Hc. unfold sanitizeFilename. by apply hasChar_trim, hasChar_dropChars_in. }
  assert (H2 : trim (sanitizeFilename filename) = sanitizeFilename filename).
  { unfold sanitizeFilename. apply trim_idem. }
  split; [exact H1|]. split; [exact H2|]. split.
  - unfold sanitizeFilename at 1. by rewrite dropChars_id.
  - intros Hc Ht. unfold sanitizeFilename. by rewrite dropChars_id.
Qed.

Lemma sanitizeFilename_clean_witness : sanitizeFilename "Romance Dawn" = "Romance Dawn".
Proof.
  apply (proj2 (proj2 (proj2 (sanitizeFilename_clean "Romance Dawn")))).
  - intros c Hc. destruct c as [[] [] [] [] [] [] [] []]; try discriminate Hc; reflexivity.
  - reflexivity.
Defined.

(** ** The parser and the line endings *)

Section LineEndings.

Import Utils.

Lemma trimStart_snoc p c :
  isWhitespace c = true →
  trimStart (p +:+ String c EmptyString) = trimStart p +:+ String c EmptyString ∨
  (trimStart p = EmptyString ∧ trimStart (p +:+ String c EmptyString) = EmptyString).
Proof.
  intros Hc. induction p as [|a p IH].
  - right. simpl. by rewrite Hc.
  - change (String a p +:+ String c EmptyString) with (String a (p +:+ String c EmptyString)).
    simpl. destruct (isWhitespace a); [done|]. by left.
Qed.

Lemma trim_snoc p c : isWhitespace c = true → trim (p +:+ String c EmptyString) = trim p.
Proof.
  intros Hc. unfold trim. destruct (trimStart_snoc p c Hc) as [->|[-> ->]]; [|done].
  by apply trimEnd_snoc.
Qed.

Lemma sameLine_trim a b : sameLine a b → trim a = trim b.
Proof. intros [->| ->]; [done|]. by apply trim_snoc. Qed.

Lemma split_snoc sep s c :
  c ≠ sep →
  ∃ pieces piece, split sep s = pieces ++ [piece] ∧
    split sep (s +:+ String c EmptyString) = pieces ++ [piece +:+ String c EmptyString].
Proof.
  intros Hc. induction s as [|a s (pieces & piece & IH1 & IH2)].
  - exists [], EmptyString. simpl. by rewrite decide_False.
  - change (String a s +:+ String c EmptyString) with (String a (s +:+ String c EmptyString)).
    simpl. rewrite IH1, IH2. destruct (decide (a = sep)).
    + by exists (EmptyString :: pieces), piece.
    + destruct pieces as [|p ps]; simpl.
      * by exists [], (String a piece).
      * by exists (String a p :: ps), piece.
Qed.

Lemma sameLine_cells a b : sameLine a b → cells a = cells b.
Proof.
  intros [->| ->]; [done|]. unfold cells.
  destruct (split_snoc comma b CR) as (pieces & piece & -> & ->); [done|].
  rewrite !fmap_app. f_equal. simpl. by rewrite trim_snoc.
Qed.

Lemma split_crlf t : Forall2 sameLine (split LF (crlf t)) (split LF t).
Proof.
  induction t as [|c t IH]; simpl.
  - constructor; [by left|constructor].
  - destruct (decide (c = LF)) as [->|Hne].
    + simpl. constructor; [by right|done].
    + simpl. rewrite decide_False by done.
      destruct IH as [|a b la lb Hab Hl].
      * constructor; [by left|constructor].
      * constructor; [|done]. destruct Hab as [->| ->]; [by left|by right].
Qed.

Lemma Forall2_sameLine_filter la lb :
  Forall2 sameLine la lb →
  Forall2 sameLine (filter (fun line => truthy (trim line) = true) la)
                   (filter (fun line => truthy (trim line) = true) lb).
Proof.
  induction 1 as [|a b la lb Hab Hl IH]; [constructor|].
  rewrite !filter_cons. rewrite (sameLine_trim a b Hab).
  case_decide; [by constructor|done].
Qed.

Lemma parseCSV_sameLine t1 t2 :
  Forall2 sameLine (split LF t1) (split LF t2) → parseCSV t1 = parseCSV t2.
Proof.
  intros H. apply Forall2_sameLine_filter in H. unfold parseCSV, nonBlankLines.
  set (l1 := filter _ (split LF t1)) in *. set (l2 := filter _ (split LF t2)) in *.
  rewrite (Forall2_length _ _ _ H). case_decide as Hlen; [done|]. clear Hlen.
  destruct H as [|a b la lb Hab Hl]; [done|]. simpl. rewrite !drop_0.
  rewrite (sameLine_cells a b Hab).
  induction Hl as [|x y lx ly Hxy Hl IH]; [done|]. simpl. f_equal; [|done].
  unfold parseLine. by rewrite (sameLine_cells x y Hxy).
Qed.

End LineEndings.

(** X10. The parser does not see how the lines end: a text whose lines end in
    carriage return and line feed parses to the same rows as the text with
    bare line feeds. *)
Theorem parseCSV_crlf (csvText : string) :
  Utils.parseCSV (crlf csvText) = Utils.parseCSV csvText.
Proof. apply parseCSV_sameLine, split_crlf. Qed.

(** ** The file-name pattern *)

Section Pattern.

Import FilePattern.

Lemma spans1_spec p s i m :
  spans1 p s !! i = Some m →
  s = m.1 +:+ m.2 ∧ String.length m.1 = S i ∧ allChars p m.1 = true.
Proof.
  revert i m. induction s as [|c s IH]; intros i m; simpl; [done|].
  destruct (p c) eqn:Hc; [|done]. destruct i as [|i]; simpl.
  - intros [= <-]. simpl. by rewrite Hc.
  - rewrite list_lookup_fmap. destruct (spans1 p s !! i) as [m'|] eqn:E; [|done].
    intros [= <-]. destruct (IH i m' E) as (Hs & Hl & Ha). simpl.
    rewrite Hc, Ha, Hl. split; [|done]. by rewrite Hs at 1.
Qed.

Lemma exec_Some fileName groups :
  exec fileName = Some groups →
  ∃ before rest, fileName = before +:+ rest ∧ groups ∈ matchAt rest.
Proof.
  induction fileName as [|c s IH]; cbn [exec].
  - destruct (head (matchAt EmptyString)) as [g|] eqn:E; [|done].
    intros [= <-]. exists EmptyString, EmptyString. split; [done|].
    by apply head_Some_elem_of.
  - destruct (head (matchAt (String c s))) as [g|] eqn:E.
    + intros [= <-]. exists EmptyString, (String c s). split; [done|].
      by apply head_Some_elem_of.
    + intros H. destruct (IH H) as (before & rest & -> & Hin).
      by exists (String c before), rest.
Qed.

Lemma hasChar_app c a b : hasChar c (a +:+ b) = hasChar c a || hasChar c b.
Proof.
  induction a as [|x a IH]; [done|].
  change (String x a +:+ b) with (String x (a +:+ b)). simpl. by rewrite IH, orb_assoc.
Qed.

Lemma matchAt_groups s arc episode :
  (arc, episode) ∈ matchAt s →
  (∃ rest, s = String "["%char rest) ∧ arc ≠ EmptyString ∧
  allChars isDigit episode = true ∧ (1 ≤ String.length episode ≤ 2)%nat.
Proof.
  unfold matchAt. intros H.
  apply list_elem_of_bind in H as (s0 & H & Hs0).
  split.
  { destruct s as [|a rest]; simpl in Hs0; [by apply elem_of_nil in Hs0|].
    destruct (decide (a = "["%char)) as [->|]; [eauto|by apply elem_of_nil in Hs0]. }
  apply list_elem_of_bind in H as (m1 & H & _).
  apply list_elem_of_bind in H as (s2 & H & _).
  apply list_elem_of_bind in H as (s3 & H & _).
  apply list_elem_of_bind in H as (m4 & H & _).
  apply list_elem_of_bind in H as (a & H & Ha).
  apply list_elem_of_bind in H as (m6 & H & _).
  apply list_elem_of_bind in H as (e & H & He).
  apply list_elem_of_bind in H as (s8 & H & _).
  apply list_elem_of_bind in H as (u & H & _).
  apply list_elem_of_singleton in H as [= -> ->].
  apply list_elem_of_lookup in Ha as [i Ha]. apply spans1_spec in Ha as (_ & Hl & _).
  split; [by destruct a.1|].
  unfold digits12 in He. rewrite elem_of_reverse in He.
  apply list_elem_of_lookup in He as [j He].
  apply lookup_take_Some in He as [He Hj].
  apply spans1_spec in He as (_ & Hl' & Hd). split; [done|]. lia.
Qed.

Lemma isDigit_cases c :
  isDigit c = true →
  c ∈ ["0"; "1"; "2"; "3"; "4"; "5"; "6"; "7"; "8"; "9"]%char.
Proof.
  destruct c as [[] [] [] [] [] [] [] []]; intros H; try discriminate H; set_solver.
Qed.

Lemma parseInt_below_100 s :
  match parseInt s with Int z => (0 <=? z) && (z <=? 99) | NaN => false end = true →
  ∃ z, parseInt s = Int z ∧ 0 ≤ z ≤ 99.
Proof.
  destruct (parseInt s) as [|z]; [done|]. intros H. exists z. split; [done|]. lia.
Qed.

Lemma parseInt_two_digits episode :
  allChars isDigit episode = true → (1 ≤ String.length episode ≤ 2)%nat →
  ∃ z, parseInt episode = Int z ∧ 0 ≤ z ≤ 99.
Proof.
  destruct episode as [|c1 [|c2 [|c3 rest]]]; simpl; intros Hd Hl; try lia.
  - rewrite andb_true_r in Hd. apply isDigit_cases in Hd.
    apply parseInt_below_100.
    repeat (apply elem_of_cons in Hd as [->|Hd]; [reflexivity|]).
    by apply elem_of_nil in Hd.
  - rewrite andb_true_r in Hd. apply andb_true_iff in Hd as [H1 H2].
    apply isDigit_cases in H1, H2. apply parseInt_below_100.
    repeat (apply elem_of_cons in H1 as [->|H1];
      [repeat (apply elem_of_cons in H2 as [->|H2]; [reflexivity|]);
       by apply elem_of_nil in H2|]).
    by apply elem_of_nil in H1.
Qed.

End Pattern.

(** X11. A file name matches the pattern only if it holds an opening square
    bracket; the arc it yields is not empty, and the episode it yields is one
    or two digits, read as a number between 0 and 99. *)
Theorem exec_groups (fileName arc episode : string) :
  FilePattern.exec fileName = Some (arc, episode) →
  hasChar "["%char fileName = true ∧ arc ≠ EmptyString ∧
  ∃ z, parseInt episode = Int z ∧ 0 ≤ z ≤ 99.
Proof.
  intros H. apply exec_Some in H as (before & rest & -> & Hin).
  apply matchAt_groups in Hin as ((r & ->) & Harc & Hd & Hl).
  split; [|split; [done|by apply parseInt_two_digits]].
  rewrite hasChar_app. simpl. apply orb_true_r.
Qed.

Lemma exec_groups_witness :
  hasChar "["%char "[1-2] Romance Dawn 01.mkv" = true ∧ "Romance Dawn" ≠ EmptyString ∧
  ∃ z, parseInt "01" = Int z ∧ 0 ≤ z ≤ 99.
Proof.
  apply (exec_groups "[1-2] Romance Dawn 01.mkv" "Romance Dawn" "01").
  vm_compute. reflexivity.
Defined.

(** ** The file loop *)

Section FileLoop.

Import RenameMediaFiles RenameLoop.

Lemma renameStep_refl acc : renameStep [] acc acc.
Proof. repeat split; simpl; lia. Qed.

Lemma renameStep_trans f1 f2 a b c :
  renameStep f1 a b → renameStep f2 b c → renameStep (f1 ++ f2) a c.
Proof.
  intros (Hu & Ht & Hs & Hp & Hr1 & Hr2) (Hu' & Ht' & Hs' & Hp' & Hr1' & Hr2').
  unfold renameStep. rewrite filter_app, length_app.
  split; [congruence|]. split; [congruence|]. split; [congruence|]. repeat split; lia.
Qed.

Lemma renameStep_processFile env tts lookup fileName acc :
  renameStep [fileName] acc (processFile env tts lookup fileName acc).
Proof.
  assert (Hw : ∀ x, updateCalls (await env x) = updateCalls x ∧
                    totalUpdates (await env x) = totalUpdates x ∧
                    sheetsOf (await env x) = sheetsOf x).
  { intros x. unfold await. by destruct (stopPressed env (awaits x)). }
  destruct acc as [s counts]. unfold processFile, renameStep.
  rewrite filter_cons, filter_nil.
  destruct (isVideo fileName) eqn:Hv; cbn [negb].
  - rewrite decide_True by done.
    destruct (FilePattern.exec fileName) as [[arc episode]|];
      [|repeat split; simpl; lia].
    destruct (seasonNumber tts (trim arc)); [|repeat split; simpl; lia].
    destruct (truthyOpt _); [|repeat split; simpl; lia].
    case_bool_decide; cbn [fst snd];
      destruct (Hw (writeOutput ("Already correct: '" +:+ fileName +:+ "'") "INFO" s))
        as (? & ? & ?);
      match goal with
      | |- context [await env ?x] => destruct (Hw x) as (-> & -> & ->)
      end; repeat split; simpl; lia.
  - rewrite decide_False by (by intros ?). repeat split; simpl; lia.
Qed.

Lemma renameStep_fileLoop env tts lookup files acc :
  renameStep files acc (fileLoop env tts lookup files acc).
Proof.
  revert acc. induction files as [|f files IH]; intros acc; [apply renameStep_refl|].
  change (f :: files) with ([f] ++ files). unfold fileLoop. rewrite foldl_app.
  eapply renameStep_trans; [apply renameStep_processFile|apply IH].
Qed.

End FileLoop.

(** X12. The renaming run never calls the media server and touches no
    counter of updates.  When it reaches its end it has counted every file
    with a video extension, has proposed at most that many new names, and
    closes the log with the report of the two counts. *)
Theorem rename_reports_counts (env : Env) (processedFiles : list string) (s : State) :
  updateCalls (RenameLoop.renameMediaFiles env processedFiles s).1 = updateCalls s ∧
  totalUpdates (RenameLoop.renameMediaFiles env processedFiles s).1 = totalUpdates s ∧
  ∀ counts, (RenameLoop.renameMediaFiles env processedFiles s).2 = Some counts →
    RenameLoop.processedCount counts =
      length (filter (fun f => RenameLoop.isVideo f = true) processedFiles) ∧
    (RenameLoop.renamedCount counts ≤ RenameLoop.processedCount counts)%nat ∧
    ∃ earlier,
      outputLog (RenameLoop.renameMediaFiles env processedFiles s).1 =
        earlier ++ reportLines counts.
Proof.
  assert (Hw : ∀ x, updateCalls (await env x) = updateCalls x ∧
                    totalUpdates (await env x) = totalUpdates x).
  { intros x. unfold await. by destruct (stopPressed env (awaits x)). }
  unfold RenameLoop.renameMediaFiles.
  destruct processedFiles as [|f files]; [done|].
  set (s1 := setStatus _ _).
  destruct (bool_decide _ && bool_decide _).
  - destruct (seasonMappingData s1) as [sm|]; [|done].
    destruct (episodeData s1) as [ed|]; [|done].
    pose proof (renameStep_fileLoop env (RenameMediaFiles.buildTitleToSeason sm)
      (RenameLoop.buildEpisodeLookup (RenameMediaFiles.buildTitleToSeason sm) ed)
      (f :: files) (s1, RenameLoop.mkCounts 0 0)) as (Hu & Ht & _ & Hp & _ & Hr).
    destruct (RenameLoop.fileLoop _ _ _ _ _) as [s2 counts].
    cbn [fst snd RenameLoop.processedCount RenameLoop.renamedCount] in *.
    split; [done|]. split; [done|]. intros c [= <-]. split; [done|]. split; [lia|].
    exists (outputLog s2). unfold RenameLoop.report, reportLines. simpl.
    by rewrite <- app_assoc.
  - destruct (getAllData env) as [m|d].
    + cbn [fst snd updateCalls totalUpdates setStatus writeOutput].
      destruct (Hw s1) as [-> ->]. done.
    + set (s2 := writeOutput _ _ _).
      assert (Hs2 : updateCalls s2 = updateCalls s ∧ totalUpdates s2 = totalUpdates s).
      { subst s2. cbn [updateCalls totalUpdates setSheets writeOutput].
        destruct (Hw s1) as [-> ->]. done. }
      destruct (seasonMappingData s2) as [sm|]; [|by destruct Hs2].
      destruct (episodeData s2) as [ed|]; [|by destruct Hs2].
      pose proof (renameStep_fileLoop env (RenameMediaFiles.buildTitleToSeason sm)
        (RenameLoop.buildEpisodeLookup (RenameMediaFiles.buildTitleToSeason sm) ed)
        (f :: files) (s2, RenameLoop.mkCounts 0 0)) as (Hu & Ht & _ & Hp & _ & Hr).
      destruct (RenameLoop.fileLoop _ _ _ _ _) as [s3 counts].
      cbn [fst snd RenameLoop.processedCount RenameLoop.renamedCount] in *.
      destruct Hs2 as [Hu2 Ht2].
      split; [transitivity (updateCalls s3); [done|congruence]|].
      split; [transitivity (totalUpdates s3); [done|congruence]|]. intros c [= <-].
      split; [done|]. split; [lia|].
      exists (outputLog s3). unfold RenameLoop.report, reportLines. simpl.
      by rewrite <- app_assoc.
Qed.

Lemma rename_reports_counts_witness :
  RenameLoop.processedCount (RenameLoop.mkCounts 2 1) =
    length (filter (fun f => RenameLoop.isVideo f = true)
              ["[1-2] East Blue 03.mkv"; "notes.txt"; "[9] Nowhere 01.MP4"]) ∧
  (RenameLoop.renamedCount (RenameLoop.mkCounts 2 1) ≤
   RenameLoop.processedCount (RenameLoop.mkCounts 2 1))%nat ∧
  ∃ earlier,
    outputLog (RenameLoop.renameMediaFiles Example.calm
                 ["[1-2] East Blue 03.mkv"; "notes.txt"; "[9] Nowhere 01.MP4"]
                 (Example.idle "plex")).1 =
      earlier ++ reportLines (RenameLoop.mkCounts 2 1).
Proof.
  apply (proj2 (proj2 (rename_reports_counts Example.calm
           ["[1-2] East Blue 03.mkv"; "notes.txt"; "[9] Nowhere 01.MP4"]
           (Example.idle "plex")))).
  vm_compute. reflexivity.
Defined.

(** ** Proposed names and the pattern *)

Section Proposed.

Import RenameMediaFiles RenameLoop.

Lemma exec_needs_bracket fileName :
  hasChar "["%char fileName = false → FilePattern.exec fileName = None.
Proof.
  intros Hb. destruct (FilePattern.exec fileName) as [[arc episode]|] eqn:E; [|done].
  apply exec_Some in E as (before & rest & -> & Hin).
  apply matchAt_groups in Hin as ((r & ->) & _).
  rewrite hasChar_app in Hb. simpl in Hb. by rewrite orb_true_r in Hb.
Qed.

Lemma lowerChar_bracket c : bool_decide (lowerChar c = "["%char) = bool_decide (c = "["%char).
Proof. by destruct c as [[] [] [] [] [] [] [] []]. Qed.

Lemma lowerChar_dot c : bool_decide (lowerChar c = "."%char) = bool_decide (c = "."%char).
Proof. by destruct c as [[] [] [] [] [] [] [] []]. Qed.

Lemma hasChar_toLowerCase_bracket s : hasChar "["%char (toLowerCase s) = hasChar "["%char s.
Proof. induction s as [|c s IH]; simpl; [done|]. by rewrite lowerChar_bracket, IH. Qed.

Lemma hasChar_toLowerCase_dot s : hasChar "."%char (toLowerCase s) = hasChar "."%char s.
Proof. induction s as [|c s IH]; simpl; [done|]. by rewrite lowerChar_dot, IH. Qed.

Lemma hasChar_dropChars c p s : hasChar c s = false → hasChar c (dropChars p s) = false.
Proof.
  induction s as [|a s IH]; simpl; [done|]. intros H.
  apply orb_false_iff in H as [H1 H2]. destruct (p a); simpl; [auto|]. rewrite H1. auto.
Qed.

Lemma hasChar_padStart2 s : hasChar "["%char (padStart2 s) = hasChar "["%char s.
Proof. by destruct s as [|a [|b s]]. Qed.

Lemma hasChar_uint d : hasChar "["%char (NilEmpty.string_of_uint d) = false.
Proof. induction d; simpl; auto. Qed.

Lemma hasChar_toString n : hasChar "["%char (toString n) = false.
Proof.
  destruct n as [|z]; [done|]. unfold toString.
  destruct (Z.to_int z) as [d|d]; simpl.
  - destruct d; try apply (hasChar_uint (_ _)); done.
  - destruct d; try apply (hasChar_uint (_ _)); done.
Qed.

(** A video extension is a full stop followed by neither a full stop nor an
    opening bracket. *)
Lemma isVideo_ext fileName :
  isVideo fileName = true →
  ∃ e, fileExt fileName = String "."%char e ∧ hasChar "."%char e = false ∧ hasChar "["%char e = false.
Proof.
  unfold isVideo. intros H. apply bool_decide_eq_true in H.
  destruct (fileExt fileName) as [|c e] eqn:E.
  { simpl in H. unfold videoExtensions in H.
    repeat (apply elem_of_cons in H as [H|H]; [done|]). by apply elem_of_nil in H. }
  assert (Hc : bool_decide (lowerChar c = "."%char) = true ∧
               hasChar "."%char (toLowerCase e) = false ∧ hasChar "["%char (toLowerCase e) = false).
  { simpl in H. unfold videoExtensions in H.
    repeat (apply elem_of_cons in H as [[= -> ->]|H]; [done|]). by apply elem_of_nil in H. }
  destruct Hc as (Hc & Hd & Hb).
  rewrite lowerChar_dot in Hc. apply bool_decide_eq_true in Hc as ->.
  rewrite hasChar_toLowerCase_dot in Hd. rewrite hasChar_toLowerCase_bracket in Hb. eauto.
Qed.

Lemma string_app_assoc (a b c : string) : (a +:+ b) +:+ c = a +:+ (b +:+ c).
Proof.
  induction a as [|x a IH]; [done|].
  change ((String x a +:+ b) +:+ c) with (String x ((a +:+ b) +:+ c)). by rewrite IH.
Qed.

Lemma fileExt_app a e :
  hasChar "."%char e = false → fileExt (a +:+ String "."%char e) = String "."%char e.
Proof.
  intros He. induction a as [|c a IH].
  - change (EmptyString +:+ String "."%char e) with (String "."%char e). simpl. by rewrite He.
  - change (String c a +:+ String "."%char e) with (String c (a +:+ String "."%char e)).
    cbn [fileExt]. rewrite hasChar_app. simpl. by rewrite orb_true_r.
Qed.

Lemma addSeasonRow_values tts row :
  map_Forall (fun _ v => hasChar "["%char (valueToString v) = false) tts →
  map_Forall (fun _ v => hasChar "["%char (valueToString v) = false)
    (RenameMediaFiles.addSeasonRow tts row).
Proof.
  intros H. unfold RenameMediaFiles.addSeasonRow.
  destruct (row !! "part") as [part|]; [|done].
  destruct (row !! "title_en") as [t|]; [|done].
  destruct (_ && _); [|done]. apply map_Forall_insert_2; [|done].
  case_decide; [done|]. apply hasChar_toString.
Qed.

Lemma buildTitleToSeason_values rows :
  map_Forall (fun _ v => hasChar "["%char (valueToString v) = false)
    (RenameMediaFiles.buildTitleToSeason rows).
Proof.
  unfold RenameMediaFiles.buildTitleToSeason.
  assert (H : ∀ tts : gmap string SeasonValue,
            map_Forall (fun _ v => hasChar "["%char (valueToString v) = false) tts →
            map_Forall (fun _ v => hasChar "["%char (valueToString v) = false)
              (foldl RenameMediaFiles.addSeasonRow tts rows)).
  { induction rows as [|row rows IH]; intros tts Ht; simpl; [done|].
    by apply IH, addSeasonRow_values. }
  apply H, map_Forall_empty.
Qed.

End Proposed.

(** X13. The name that the loop proposes for a video file is not a name that
    the loop can read: unless the episode title holds an opening square
    bracket, the proposed name does not match the pattern, and a file that
    carries it is counted, reported as not parsable and never found
    correct. *)
Theorem proposed_name_not_parsed (env : Env) (seasonMapping : list Row)
    (episodeLookup : gmap string string) (arcTitle : string)
    (season : RenameMediaFiles.SeasonValue) (episodeNumber : JsNum)
    (epTitle fileName : string) (s : State) (counts : RenameLoop.Counts) :
  RenameMediaFiles.seasonNumber (RenameMediaFiles.buildTitleToSeason seasonMapping) arcTitle
    = Some season →
  RenameLoop.isVideo fileName = true →
  hasChar "["%char epTitle = false →
  let proposed :=
    RenameLoop.newName season episodeNumber epTitle (RenameLoop.fileExt fileName) in
  FilePattern.exec proposed = None ∧
  RenameLoop.processFile env (RenameMediaFiles.buildTitleToSeason seasonMapping)
    episodeLookup proposed (s, counts) =
    (writeOutput ("Could not parse '" +:+ proposed +:+ "'. Skipping.") "WARNING" s,
     RenameLoop.mkCounts (S (RenameLoop.processedCount counts))
       (RenameLoop.renamedCount counts)).
Proof.
  intros Hseason Hvideo Htitle proposed.
  destruct (isVideo_ext fileName Hvideo) as (e & He & Hd & Hb).
  assert (Hv : hasChar "["%char (RenameLoop.valueToString season) = false).
  { unfold RenameMediaFiles.seasonNumber in Hseason. case_bool_decide.
    - by injection Hseason as <-.
    - destruct (RenameMediaFiles.buildTitleToSeason seasonMapping !! toLowerCase arcTitle)
        as [v|] eqn:E; [|done].
      destruct (RenameMediaFiles.truthyValue v); [|done]. injection Hseason as <-.
      by apply (buildTitleToSeason_values seasonMapping _ _ E). }
  assert (Hexec : FilePattern.exec proposed = None).
  { apply exec_needs_bracket. subst proposed. unfold RenameLoop.newName.
    rewrite He, !hasChar_app, !hasChar_padStart2, Hv, hasChar_toString.
    unfold sanitizeFilename. rewrite (hasChar_trim _ _ (hasChar_dropChars _ _ _ Htitle)).
    simpl. by rewrite Hb. }
  split; [exact Hexec|].
  assert (Hvid : RenameLoop.isVideo proposed = true).
  { unfold RenameLoop.isVideo in *. subst proposed. unfold RenameLoop.newName.
    rewrite He. rewrite <- !string_app_assoc.
    rewrite (fileExt_app _ e Hd). by rewrite <- He. }
  unfold RenameLoop.processFile. rewrite Hvid, Hexec. done.
Qed.

Lemma proposed_name_not_parsed_witness :
  FilePattern.exec
    (RenameLoop.newName (RenameMediaFiles.Num (Int 1)) (Int 3) "Romance Dawn"
       (RenameLoop.fileExt "[1-2] East Blue 03.mkv")) = None.
Proof.
  apply (proposed_name_not_parsed Example.calm Example.eastBlueMap ∅ "East Blue"
           (RenameMediaFiles.Num (Int 1)) (Int 3) "Romance Dawn" "[1-2] East Blue 03.mkv"
           (Example.idle "plex") (RenameLoop.mkCounts 0 0)); reflexivity.
Defined.
